(** * s3check: a shallow embedding of [s3check.py] and its properties

    The development follows the source file top-down:

    - [PyStr]   the operations of Python's [str] the program uses
                ([strip], [startswith], [in], [split], slicing);
    - [Py]      exceptions and the result of a call that may raise;
    - [S3]      the class [S3AccessChecker]: [parse_s3_url],
                [check_bucket_access], [check_object_access],
                [check_s3_url_access], [check_multiple_urls];
    - [Domain]  the module-level functions [convert_domain_to_s3_url],
                [load_urls_from_file] and the part of [main] that builds
                the report rows;
    - [S3Base]  the class once more, for a client that may also raise the
                exceptions outside [Exception].

    Characters are Rocq's [ascii], read as the code points 0..255 of a
    Python [str]; a value that may be [None] is an [option]. *)

From Stdlib Require Import Bool Arith ZArith List Permutation Sorted Lia
  Ascii String.
Import ListNotations.

Local Open Scope list_scope.
Local Open Scope string_scope.

(* ================================================================== *)
(** ** Python strings *)

Module PyStr.

(** [c.isspace()] on the code points below 256: TAB..CR, FS..US, SPACE,
    NEL (0x85) and NBSP (0xA0). *)
Definition isspace (c : ascii) : bool :=
  let n := nat_of_ascii c in
  ((9 <=? n)%nat && (n <=? 13)%nat) || ((28 <=? n)%nat && (n <=? 32)%nat)
  || (n =? 133)%nat || (n =? 160)%nat.

(** [s.lstrip()] *)
Fixpoint lstrip (s : string) : string :=
  match s with
  | EmptyString => EmptyString
  | String c s' => if isspace c then lstrip s' else s
  end.

(** [s.rstrip()] *)
Fixpoint rstrip (s : string) : string :=
  match s with
  | EmptyString => EmptyString
  | String c s' =>
      match rstrip s' with
      | EmptyString => if isspace c then EmptyString else String c EmptyString
      | r => String c r
      end
  end.

(** [s.strip()] *)
Definition strip (s : string) : string := rstrip (lstrip s).

(** [s.startswith(p)] *)
Definition startswith (p s : string) : bool := String.prefix p s.

(** [s[n:]] for [n >= 0] *)
Fixpoint drop (n : nat) (s : string) : string :=
  match n, s with
  | O, _ => s
  | S _, EmptyString => EmptyString
  | S k, String _ s' => drop k s'
  end.

(** [sub in s] *)
Fixpoint contains (sub s : string) : bool :=
  startswith sub s
  || match s with
     | EmptyString => false
     | String _ s' => contains sub s'
     end.

(** The left-to-right scan behind [s.split(sep, maxsplit)] for a non-empty
    [sep]: [cur] is the piece being read, [skip] counts the characters of a
    separator just matched that are still to be passed over, [maxsplit] the
    cuts still allowed. *)
Fixpoint split_go (sep : string) (maxsplit skip : nat) (cur s : string)
  : list string :=
  match s with
  | EmptyString => [cur]
  | String c s' =>
      match skip with
      | S k => split_go sep maxsplit k cur s'
      | O =>
          match maxsplit with
          | S m =>
              if startswith sep s
              then cur :: split_go sep m (String.length sep - 1) EmptyString s'
              else split_go sep maxsplit 0 (cur ++ String c EmptyString) s'
          | O => split_go sep 0 0 (cur ++ String c EmptyString) s'
          end
      end
  end.

(** [s.split(sep, maxsplit)] *)
Definition split_max (sep : string) (maxsplit : nat) (s : string)
  : list string :=
  split_go sep maxsplit 0 EmptyString s.

(** [s.split(sep)]: no limit on the number of cuts (a string of length [n]
    holds at most [n] separators). *)
Definition split (sep s : string) : list string :=
  split_max sep (String.length s) s.

(** [bool(s)]: a string is true when it is not empty. *)
Definition truthy (s : string) : bool :=
  match s with EmptyString => false | _ => true end.

(** No character of [s] is white space. *)
Fixpoint no_space (s : string) : bool :=
  match s with
  | EmptyString => true
  | String c s' => negb (isspace c) && no_space s'
  end.

(** Every character of [s] is white space; the empty string included. *)
Fixpoint all_space (s : string) : bool :=
  match s with
  | EmptyString => true
  | String c s' => isspace c && all_space s'
  end.

End PyStr.

(* ================================================================== *)
(** ** Exceptions *)

Module Py.

(** The exceptions that travel through the program, all of them subclasses
    of Python's [Exception].  [ClientError] is botocore's, with
    [e.response['Error']['Code']]; every constructor carries [str(e)]. *)
Inductive exn : Type :=
| ClientError (error_code : string) (msg : string)
| ValueError (msg : string)
| AttributeError (msg : string)
| IndexError (msg : string)
| OtherException (msg : string).

(** [str(e)] *)
Definition str (e : exn) : string :=
  match e with
  | ClientError _ m => m
  | ValueError m => m
  | AttributeError m => m
  | IndexError m => m
  | OtherException m => m
  end.

(** The result of running a piece of code: a value, or a raised exception. *)
Inductive result (A : Type) : Type :=
| Returned (a : A)
| Raised (e : exn).

Arguments Returned {A} a.
Arguments Raised {A} e.

Definition bind {A B : Type} (r : result A) (k : A -> result B) : result B :=
  match r with
  | Returned a => k a
  | Raised e => Raised e
  end.

(** [try: body  except handler] where [handler] picks the exceptions it
    catches ([None]: not caught, the exception goes on). *)
Definition try_except {A : Type} (body : result A)
           (handler : exn -> option (result A)) : result A :=
  match body with
  | Returned a => Returned a
  | Raised e =>
      match handler e with
      | Some r => r
      | None => Raised e
      end
  end.

End Py.

Notation "x <- c1 ;; c2" := (Py.bind c1 (fun x => c2))
  (at level 61, c1 at next level, right associativity).
Notation "' pat <- c1 ;; c2" := (Py.bind c1 (fun x => match x with pat => c2 end))
  (at level 61, pat pattern, c1 at next level, right associativity).

Import PyStr Py.

(* ================================================================== *)
(** ** class S3AccessChecker *)

Module S3.

(** The boto3 client, as far as the program uses it: each of the two calls
    either returns (its value is never read) or raises. *)
Record S3Client : Type := {
  get_bucket_location : string -> result unit;
  head_object : string -> string -> result unit
}.

(** The dictionary [check_s3_url_access] returns.  [url] is the argument as
    it was given, [None] included. *)
Record outcome : Type := {
  url : option string;
  bucket : string;
  key : string;
  accessible : bool;
  message : string;
  type : string
}.

(** [parse_s3_url]: on [None], [s3_url.startswith] is an [AttributeError]. *)
Definition parse_s3_url (s3_url : option string) : result (string * string) :=
  match s3_url with
  | None =>
      Raised (AttributeError "'NoneType' object has no attribute 'startswith'")
  | Some u =>
      if negb (startswith "s3://" u)
      then Raised (ValueError ("Invalid S3 URL format: " ++ u))
      else
        let path := drop 5 u in
        let parts := split_max "/" 1 path in
        let bucket := hd EmptyString parts in
        let key := if (1 <? List.length parts)%nat
                   then nth 1 parts EmptyString else EmptyString in
        Returned (bucket, key)
  end.

(** [check_bucket_access]: only [ClientError] is caught. *)
Definition check_bucket_access (c : S3Client) (bucket_name : string)
  : result (bool * string) :=
  try_except
    (_ <- get_bucket_location c bucket_name ;;
     Returned (true, "Bucket accessible"))
    (fun e =>
       match e with
       | ClientError error_code _ =>
           Some (Returned
             (if String.eqb error_code "NoSuchBucket"
              then (false, "Bucket does not exist")
              else if String.eqb error_code "AccessDenied"
              then (false, "Access denied to bucket")
              else if String.eqb error_code "Forbidden"
              then (false, "Forbidden - no permissions")
              else (false, "Error: " ++ error_code)))
       | _ => None
       end).

(** [check_object_access] *)
Definition check_object_access (c : S3Client) (bucket_name object_key : string)
  : result (bool * string) :=
  try_except
    (_ <- head_object c bucket_name object_key ;;
     Returned (true, "Object accessible"))
    (fun e =>
       match e with
       | ClientError error_code _ =>
           Some (Returned
             (if String.eqb error_code "NoSuchKey"
              then (false, "Object does not exist")
              else if String.eqb error_code "NoSuchBucket"
              then (false, "Bucket does not exist")
              else if String.eqb error_code "AccessDenied"
                      || String.eqb error_code "Forbidden"
              then (false, "Access denied to object")
              else (false, "Error: " ++ error_code)))
       | _ => None
       end).

(** The body of the [try] of [check_s3_url_access]. *)
Definition check_s3_url_access_body (c : S3Client) (s3_url : option string)
  : result outcome :=
  '(bucket, key) <- parse_s3_url s3_url ;;
  if negb (truthy key)
  then
    '(accessible, message) <- check_bucket_access c bucket ;;
    Returned {| url := s3_url; bucket := bucket; key := key;
                accessible := accessible; message := message;
                type := "bucket" |}
  else
    '(accessible, message) <- check_object_access c bucket key ;;
    Returned {| url := s3_url; bucket := bucket; key := key;
                accessible := accessible; message := message;
                type := "object" |}.

(** [check_s3_url_access]: [except ValueError], then [except Exception]. *)
Definition check_s3_url_access (c : S3Client) (s3_url : option string)
  : result outcome :=
  try_except (check_s3_url_access_body c s3_url)
    (fun e =>
       match e with
       | ValueError _ =>
           Some (Returned
             {| url := s3_url; bucket := ""; key := "";
                accessible := false; message := str e;
                type := "invalid" |})
       | _ =>
           Some (Returned
             {| url := s3_url; bucket := ""; key := "";
                accessible := false;
                message := "Unexpected error: " ++ str e;
                type := "error" |})
       end).

(** [l] without its element at position [i]. *)
Fixpoint remove_nth {A : Type} (i : nat) (l : list A) : list A :=
  match l, i with
  | [], _ => []
  | _ :: l', O => l'
  | x :: l', S j => x :: remove_nth j l'
  end.

(** [concurrent.futures.as_completed]: the futures in the order in which
    the iterator yields them.  That order is not the program's: the futures
    already finished when the iteration starts come in the order of a set,
    the others as they complete.  At step [k] the scheduler [sched] names,
    among the futures not yet yielded, the one that is yielded next. *)
Fixpoint as_completed_go {A : Type} (n k : nat) (sched : nat -> nat)
         (pending : list A) : list A :=
  match n, pending with
  | S n', x :: _ =>
      let i := (sched k mod List.length pending)%nat in
      nth i pending x :: as_completed_go n' (S k) sched (remove_nth i pending)
  | _, _ => []
  end.

Definition as_completed {A : Type} (sched : nat -> nat) (fs : list A)
  : list A :=
  as_completed_go (List.length fs) 0 sched fs.

(** The loop [for future in ...: results.append(future.result())];
    [future.result()] raises what the task raised. *)
Fixpoint collect_results {A : Type} (fs : list (result A)) : result (list A) :=
  match fs with
  | [] => Returned []
  | future :: fs' =>
      r <- future ;;
      rs <- collect_results fs' ;;
      Returned (r :: rs)
  end.

(** [check_multiple_urls].  [ThreadPoolExecutor] refuses a pool without
    workers; a future holds what its task returned or raised. *)
Definition check_multiple_urls (c : S3Client) (sched : nat -> nat)
           (s3_urls : list (option string)) (max_workers : Z)
  : result (list outcome) :=
  if (max_workers <=? 0)%Z
  then Raised (ValueError "max_workers must be greater than 0")
  else
    let future_to_url := map (fun url => check_s3_url_access c url) s3_urls in
    collect_results (as_completed sched future_to_url).

(** The outcome of a bucket-level probe of [s3_url]. *)
Definition bucket_outcome (s3_url b : string) (accessible : bool)
           (message : string) : outcome :=
  {| url := Some s3_url; bucket := b; key := "";
     accessible := accessible; message := message; type := "bucket" |}.

(** What [check_s3_url_access] answers when it is given [None]. *)
Definition none_outcome : outcome :=
  {| url := None; bucket := ""; key := ""; accessible := false;
     message := "Unexpected error: 'NoneType' object has no attribute 'startswith'";
     type := "error" |}.

(** A client none of whose calls raises a [ValueError]. *)
Definition raises_no_value_error (c : S3Client) : Prop :=
  (forall b m, get_bucket_location c b <> Raised (ValueError m))
  /\ (forall b k m, head_object c b k <> Raised (ValueError m)).

(** A client whose bucket call fails with a [ValueError]. *)
Definition value_error_client : S3Client :=
  {| get_bucket_location := fun _ => Raised (ValueError "invalid endpoint");
     head_object := fun _ _ => Returned tt |}.

(** A client for which [bucket-a] is open and every other bucket denied. *)
Definition bucket_a_client : S3Client :=
  {| get_bucket_location := fun b =>
       if String.eqb b "bucket-a" then Returned tt
       else Raised (ClientError "AccessDenied" "Access Denied");
     head_object := fun _ _ => Returned tt |}.

(** The outcome of an object-level probe of [s3_url]. *)
Definition object_outcome (s3_url b k : string) (accessible : bool)
           (message : string) : outcome :=
  {| url := Some s3_url; bucket := b; key := k;
     accessible := accessible; message := message; type := "object" |}.

(** The client call the probe of the address [(b, k)] makes. *)
Definition probe_call (c : S3Client) (b k : string) : result unit :=
  if truthy k then head_object c b k else get_bucket_location c b.

(** The counting loop of [print_results] and [print_results_with_domains],
    [accessible_count += result['accessible']]: the number printed in the
    summary line.  What is printed is left out. *)
Definition accessible_count (results : list outcome) : Z :=
  fold_left (fun count r => (count + (if accessible r then 1 else 0))%Z)
            results 0%Z.

(** The URL in the result of a task, [None] for a task that raised. *)
Definition result_url (f : result outcome) : option string :=
  match f with
  | Returned o => url o
  | Raised _ => None
  end.

End S3.

(* ================================================================== *)
(** ** Module-level functions *)

Module Domain.

Import S3.

(** [f"s3://{bucket}/{path}"] if [path] else [f"s3://{bucket}"] *)
Definition s3_url_of (bucket path : string) : string :=
  if truthy path then "s3://" ++ bucket ++ "/" ++ path
  else "s3://" ++ bucket.

(** The path-style branches: [domain.split('/', 2)], bucket in the second
    piece; with fewer than two pieces the function falls off its end and
    returns [None]. *)
Definition path_style (domain : string) : option string :=
  let parts := split_max "/" 2 domain in
  if (2 <=? List.length parts)%nat then
    let bucket := nth 1 parts "" in
    let path := if (2 <? List.length parts)%nat then nth 2 parts "" else "" in
    Some (s3_url_of bucket path)
  else None.

(** The removal of a leading [https://] or [http://]. *)
Definition strip_protocol (domain : string) : string :=
  if startswith "https://" domain then drop 8 domain
  else if startswith "http://" domain then drop 7 domain
  else domain.

(** [convert_domain_to_s3_url] *)
Definition convert_domain_to_s3_url (domain : string) : option string :=
  let domain := strip domain in
  let domain := strip_protocol domain in
  if contains ".s3." domain || contains ".s3-" domain then
    let parts := split_max "/" 1 domain in
    let host := hd "" parts in
    let path := if (1 <? List.length parts)%nat then nth 1 parts "" else "" in
    let bucket :=
      if contains ".s3." host then hd "" (split ".s3." host)
      else if contains ".s3-" host then hd "" (split ".s3-" host)
      else host in
    Some (s3_url_of bucket path)
  else if startswith "s3." domain || startswith "s3-" domain then
    path_style domain
  else if contains "s3.amazonaws.com" domain then
    path_style domain
  else if startswith "s3://" domain then
    Some domain
  else
    if contains "/" domain then
      let parts := split_max "/" 1 domain in
      let bucket := hd "" parts in
      let path := nth 1 parts "" in
      Some ("s3://" ++ bucket ++ "/" ++ path)
    else Some ("s3://" ++ domain).

(** An entry of the list [load_urls_from_file] builds. *)
Record url_entry : Type := {
  original : string;
  s3_url : option string;
  line_num : nat
}.

(** [load_urls_from_file], on the lines of the file: blank lines and
    comments are skipped, line numbers start at 1. *)
Fixpoint load_lines (line_num : nat) (lines : list string) : list url_entry :=
  match lines with
  | [] => []
  | line :: rest =>
      let original := strip line in
      if truthy original && negb (startswith "#" original)
      then {| original := original;
              s3_url := convert_domain_to_s3_url original;
              line_num := line_num |} :: load_lines (S line_num) rest
      else load_lines (S line_num) rest
  end.

Definition load_urls_from_file (lines : list string) : list url_entry :=
  load_lines 1 lines.

(** A result with its ['original_domain'], as [main] prints it and
    [save_results_to_csv] writes it. *)
Record report_row : Type := {
  original_domain : string;
  result_of : outcome
}.

(** The loop of [main] over [enumerate(results)]:
    [result['original_domain'] = url_data[i]['original']]. *)
Fixpoint attach_originals (url_data : list url_entry) (i : nat)
         (results : list outcome) : result (list report_row) :=
  match results with
  | [] => Returned []
  | r :: rest =>
      match nth_error url_data i with
      | None => Raised (IndexError "list index out of range")
      | Some data =>
          rows <- attach_originals url_data (S i) rest ;;
          Returned ({| original_domain := original data;
                       result_of := r |} :: rows)
      end
  end.

(** [main], from the lines of the input file to [results_with_original],
    the list that is printed and saved in this order. *)
Definition main_rows (c : S3Client) (sched : nat -> nat) (workers : Z)
           (lines : list string) : result (list report_row) :=
  let url_data := load_urls_from_file lines in
  match url_data with
  | [] => Returned []
  | _ =>
      let s3_urls := map s3_url url_data in
      results <- check_multiple_urls c sched s3_urls workers ;;
      attach_originals url_data 0 results
  end.

(** Normalization, from a raw line to a [(bucket, key)] address: the URL of
    [convert_domain_to_s3_url] read by [parse_s3_url], as
    [check_s3_url_access] does first. *)
Definition normalize (raw : string) : result (string * string) :=
  parse_s3_url (convert_domain_to_s3_url raw).

(** The input of the pattern match of [convert_domain_to_s3_url]. *)
Definition stripped (raw : string) : string := strip_protocol (strip raw).

(** [MALFORMED_INPUT] is the ['invalid'] answer, the one given to a
    [ValueError]. *)
Definition malformed_input {A : Type} (r : result A) : bool :=
  match r with
  | Raised (ValueError _) => true
  | _ => false
  end.

(** The pattern the input matches leaves a non-empty piece for the bucket:
    the stripped input begins with none of ["/"], [".s3."], [".s3-"], and
    either holds no ["//"], or is in the form [s3://bucket...] with a
    bucket and without the path-style host. *)
Definition bucket_segment_present (d : string) : bool :=
  negb (startswith "/" d) && negb (startswith ".s3." d)
  && negb (startswith ".s3-" d)
  && (negb (contains "//" d)
      || (startswith "s3://" d && negb (startswith "s3:///" d)
          && negb (contains "s3.amazonaws.com" d))).

(** [accessible_results] of [main]: the rows listed as accessible after
    the report. *)
Definition accessible_results (rows : list report_row) : list report_row :=
  filter (fun r => accessible (result_of r)) rows.

(** The stripped input matches none of the patterns tried before the last
    branch, the one of a bare bucket name. *)
Definition no_pattern (d : string) : bool :=
  negb (contains ".s3." d || contains ".s3-" d)
  && negb (startswith "s3." d || startswith "s3-" d)
  && negb (contains "s3.amazonaws.com" d)
  && negb (startswith "s3://" d).

End Domain.

(* ================================================================== *)
(** ** The class again, with the exceptions outside [Exception] *)

(** [exn] holds the subclasses of [Exception], and a client of [S3] raises
    nothing else.  Python has more: [KeyboardInterrupt], [SystemExit] and
    [GeneratorExit] derive from [BaseException] only, and [except Exception]
    lets them pass.  [S3Base] is the class for a client that may raise
    these too; on a client that does not, it is [S3] (see
    [check_s3_url_access_lift] and [check_multiple_urls_lift]). *)
Module S3Base.

Import S3.

(** What a call can raise. *)
Inductive raised : Type :=
| IsException (e : exn)
| KeyboardInterrupt
| SystemExit (code : string)
| GeneratorExit.

(** How a piece of code ends: with a value, or with something raised. *)
Inductive completion (A : Type) : Type :=
| Normal (a : A)
| Abrupt (r : raised).

Arguments Normal {A} a.
Arguments Abrupt {A} r.

Definition bind {A B : Type} (m : completion A) (k : A -> completion B)
  : completion B :=
  match m with
  | Normal a => k a
  | Abrupt r => Abrupt r
  end.

(** [try: body  except handler], as [Py.try_except]. *)
Definition try_except {A : Type} (body : completion A)
           (handler : raised -> option (completion A)) : completion A :=
  match body with
  | Normal a => Normal a
  | Abrupt r =>
      match handler r with
      | Some m => m
      | None => Abrupt r
      end
  end.

(** The code of [S3] and of [Domain] raises subclasses of [Exception]
    only. *)
Definition of_result {A : Type} (m : result A) : completion A :=
  match m with
  | Returned a => Normal a
  | Raised e => Abrupt (IsException e)
  end.

(** The boto3 client, each of whose two calls returns or raises. *)
Record Client : Type := {
  get_bucket_location : string -> completion unit;
  head_object : string -> string -> completion unit
}.

(** [check_bucket_access]: only [ClientError] is caught. *)
Definition check_bucket_access (c : Client) (bucket_name : string)
  : completion (bool * string) :=
  try_except
    (bind (get_bucket_location c bucket_name)
          (fun _ => Normal (true, "Bucket accessible")))
    (fun r =>
       match r with
       | IsException (ClientError error_code _) =>
           Some (Normal
             (if String.eqb error_code "NoSuchBucket"
              then (false, "Bucket does not exist")
              else if String.eqb error_code "AccessDenied"
              then (false, "Access denied to bucket")
              else if String.eqb error_code "Forbidden"
              then (false, "Forbidden - no permissions")
              else (false, "Error: " ++ error_code)))
       | _ => None
       end).

(** [check_object_access] *)
Definition check_object_access (c : Client) (bucket_name object_key : string)
  : completion (bool * string) :=
  try_except
    (bind (head_object c bucket_name object_key)
          (fun _ => Normal (true, "Object accessible")))
    (fun r =>
       match r with
       | IsException (ClientError error_code _) =>
           Some (Normal
             (if String.eqb error_code "NoSuchKey"
              then (false, "Object does not exist")
              else if String.eqb error_code "NoSuchBucket"
              then (false, "Bucket does not exist")
              else if String.eqb error_code "AccessDenied"
                      || String.eqb error_code "Forbidden"
              then (false, "Access denied to object")
              else (false, "Error: " ++ error_code)))
       | _ => None
       end).

(** The body of the [try] of [check_s3_url_access]. *)
Definition check_s3_url_access_body (c : Client) (s3_url : option string)
  : completion outcome :=
  bind (of_result (parse_s3_url s3_url))
       (fun '(bucket, key) =>
          if negb (truthy key)
          then
            bind (check_bucket_access c bucket)
                 (fun '(accessible, message) =>
                    Normal {| url := s3_url; bucket := bucket; key := key;
                              accessible := accessible; message := message;
                              type := "bucket" |})
          else
            bind (check_object_access c bucket key)
                 (fun '(accessible, message) =>
                    Normal {| url := s3_url; bucket := bucket; key := key;
                              accessible := accessible; message := message;
                              type := "object" |})).

(** [check_s3_url_access]: [except ValueError], then [except Exception];
    what is not an [Exception] goes on. *)
Definition check_s3_url_access (c : Client) (s3_url : option string)
  : completion outcome :=
  try_except (check_s3_url_access_body c s3_url)
    (fun r =>
       match r with
       | IsException (ValueError _ as e) =>
           Some (Normal
             {| url := s3_url; bucket := ""; key := "";
                accessible := false; message := str e;
                type := "invalid" |})
       | IsException e =>
           Some (Normal
             {| url := s3_url; bucket := ""; key := "";
                accessible := false;
                message := "Unexpected error: " ++ str e;
                type := "error" |})
       | _ => None
       end).

(** The loop [for future in ...: results.append(future.result())]: a
    future keeps whatever its task raised, and [future.result()] raises it
    again. *)
Fixpoint collect_results {A : Type} (fs : list (completion A))
  : completion (list A) :=
  match fs with
  | [] => Normal []
  | future :: fs' =>
      bind future (fun r =>
      bind (collect_results fs') (fun rs =>
      Normal (r :: rs)))
  end.

(** [check_multiple_urls] *)
Definition check_multiple_urls (c : Client) (sched : nat -> nat)
           (s3_urls : list (option string)) (max_workers : Z)
  : completion (list outcome) :=
  if (max_workers <=? 0)%Z
  then Abrupt (IsException (ValueError "max_workers must be greater than 0"))
  else
    let future_to_url := map (fun url => check_s3_url_access c url) s3_urls in
    collect_results (as_completed sched future_to_url).

(** The client call the probe of the address [(b, k)] makes. *)
Definition probe_call (c : Client) (b k : string) : completion unit :=
  if truthy k then head_object c b k else get_bucket_location c b.

(** A call that ends with a value or with a subclass of [Exception]. *)
Definition within_exception {A : Type} (m : completion A) : Prop :=
  match m with
  | Normal _ => True
  | Abrupt (IsException _) => True
  | Abrupt _ => False
  end.

(** A client that raises subclasses of [Exception] only. *)
Definition only_exceptions (c : Client) : Prop :=
  (forall b, within_exception (get_bucket_location c b))
  /\ (forall b k, within_exception (head_object c b k)).

(** A client of [S3], which raises subclasses of [Exception] only. *)
Definition lift_client (c : S3Client) : Client :=
  {| get_bucket_location := fun b => of_result (S3.get_bucket_location c b);
     head_object := fun b k => of_result (S3.head_object c b k) |}.

(** A client whose bucket call is interrupted. *)
Definition interrupted_client : Client :=
  {| get_bucket_location := fun _ => Abrupt KeyboardInterrupt;
     head_object := fun _ _ => Normal tt |}.

(** A client whose bucket call times out. *)
Definition timeout_client : Client :=
  {| get_bucket_location := fun _ =>
       Abrupt (IsException (OtherException "Connect timeout on endpoint URL"));
     head_object := fun _ _ => Normal tt |}.

(** What the probe answers when an [Exception] that is not a [ClientError]
    reaches its handlers. *)
Definition failure_outcome (s3_url : string) (e : exn) : outcome :=
  {| url := Some s3_url; bucket := ""; key := ""; accessible := false;
     message := match e with
                | ValueError m => m
                | _ => "Unexpected error: " ++ str e
                end;
     type := match e with
             | ValueError _ => "invalid"
             | _ => "error"
             end |}.

End S3Base.

Import S3 Domain.

(* ================================================================== *)
(** ** Facts on Python strings *)

Section StringFacts.

Lemma append_empty_r : forall s : string, s ++ "" = s.
Proof.
  induction s as [| c s IH]; simpl; [reflexivity | now rewrite IH].
Qed.

Lemma append_assoc' : forall s t u : string, (s ++ t) ++ u = s ++ t ++ u.
Proof.
  induction s as [| c s IH]; intros; simpl; [reflexivity | now rewrite IH].
Qed.

Lemma startswith_empty : forall s, startswith "" s = true.
Proof. destruct s; reflexivity. Qed.

Lemma startswith_cons :
  forall a p c s,
    startswith (String a p) (String c s) = Ascii.eqb a c && startswith p s.
Proof.
  intros. unfold startswith. simpl.
  destruct (ascii_dec a c) as [-> | Hne].
  - now rewrite Ascii.eqb_refl.
  - apply Ascii.eqb_neq in Hne. now rewrite Hne.
Qed.

Lemma startswith_app : forall p s, startswith p (p ++ s) = true.
Proof.
  induction p as [| a p IH]; intros s.
  - apply startswith_empty.
  - simpl append. rewrite startswith_cons, Ascii.eqb_refl. apply IH.
Qed.

Lemma startswith_drop :
  forall p s, startswith p s = true -> s = p ++ drop (String.length p) s.
Proof.
  induction p as [| a p IH]; intros s H.
  - reflexivity.
  - destruct s as [| c s]; [discriminate |].
    rewrite startswith_cons in H. apply andb_true_iff in H as [Hc Hp].
    apply Ascii.eqb_eq in Hc. subst c. simpl. f_equal. now apply IH.
Qed.

Lemma startswith_app_l :
  forall p t r, startswith p t = true -> startswith p (t ++ r) = true.
Proof.
  intros p t r H. rewrite (startswith_drop p t H), append_assoc'.
  apply startswith_app.
Qed.

Lemma contains_cons :
  forall n c s, contains n (String c s) = startswith n (String c s) || contains n s.
Proof. reflexivity. Qed.

Lemma contains_startswith :
  forall n s, startswith n s = true -> contains n s = true.
Proof.
  intros n s H. destruct s; cbn [contains]; rewrite H; reflexivity.
Qed.

Lemma contains_app_r :
  forall n a s, contains n s = true -> contains n (a ++ s) = true.
Proof.
  induction a as [| c a IH]; intros s H; [exact H |].
  simpl append. rewrite contains_cons, (IH s H). apply orb_true_r.
Qed.

Lemma contains_false_cons :
  forall n c s,
    contains n (String c s) = false ->
    startswith n (String c s) = false /\ contains n s = false.
Proof.
  intros n c s H. rewrite contains_cons in H. now apply orb_false_iff in H.
Qed.

(** The first ["/"] of a string that has one. *)
Lemma contains_slash_cut :
  forall s,
    contains "/" s = true ->
    exists a r, s = a ++ String "/" r /\ contains "/" a = false.
Proof.
  induction s as [| c s IH]; intros H; [discriminate |].
  rewrite contains_cons in H.
  destruct (startswith "/" (String c s)) eqn:Hc.
  - rewrite startswith_cons in Hc. apply andb_true_iff in Hc as [Hc _].
    apply Ascii.eqb_eq in Hc. subst c. exists "", s. split; reflexivity.
  - simpl in H. destruct (IH H) as [a [r [Hs Ha]]].
    exists (String c a), r. split; [simpl; now rewrite Hs |].
    rewrite contains_cons, Ha, orb_false_r.
    rewrite startswith_cons in *. rewrite startswith_empty in *.
    exact Hc.
Qed.

End StringFacts.

Section SplitFacts.

Lemma split_go_zero :
  forall sep s cur, split_go sep 0 0 cur s = [cur ++ s].
Proof.
  induction s as [| c s IH]; intros cur; cbn [split_go].
  - now rewrite append_empty_r.
  - rewrite IH, append_assoc'. reflexivity.
Qed.

(** Without a separator there is nothing to cut. *)
Lemma split_go_none :
  forall sep s m cur,
    contains sep s = false -> split_go sep m 0 cur s = [cur ++ s].
Proof.
  induction s as [| c s IH]; intros m cur H.
  - cbn [split_go]. now rewrite append_empty_r.
  - apply contains_false_cons in H as [Hp Hs].
    cbn [split_go]. destruct m as [| m].
    + rewrite (IH 0%nat _ Hs), append_assoc'. reflexivity.
    + rewrite Hp, (IH _ _ Hs), append_assoc'. reflexivity.
Qed.

Lemma split_max_none :
  forall sep m s, contains sep s = false -> split_max sep m s = [s].
Proof.
  intros. unfold split_max. now rewrite split_go_none.
Qed.

(** The first cut of a split on ["/"]. *)
Lemma split_go_slash_cut :
  forall a m cur r,
    contains "/" a = false ->
    split_go "/" (S m) 0 cur (a ++ String "/" r)
    = (cur ++ a) :: split_go "/" m 0 "" r.
Proof.
  induction a as [| c a IH]; intros m cur r H.
  - simpl append. cbn [split_go]. rewrite startswith_cons, Ascii.eqb_refl.
    rewrite startswith_empty, append_empty_r. reflexivity.
  - apply contains_false_cons in H as [Hp Hs].
    simpl append. cbn [split_go].
    rewrite startswith_cons, startswith_empty, andb_true_r in *.
    rewrite Hp, (IH _ _ _ Hs), append_assoc'. reflexivity.
Qed.

(** The first piece of a split is a prefix of the string, after [cur]. *)
Lemma split_go_hd :
  forall sep s m cur,
    exists t r,
      hd "" (split_go sep m 0 cur s) = cur ++ t /\ s = t ++ r.
Proof.
  induction s as [| c s IH]; intros m cur.
  - exists "", "". cbn [split_go hd]. now rewrite append_empty_r.
  - cbn [split_go]. destruct m as [| m].
    + destruct (IH 0%nat (cur ++ String c "")) as [t [r [Hh Hs]]].
      exists (String c t), r. rewrite Hh, append_assoc'. simpl. now rewrite Hs.
    + destruct (startswith sep (String c s)).
      * exists "", (String c s). cbn [hd]. now rewrite append_empty_r.
      * destruct (IH (S m) (cur ++ String c "")) as [t [r [Hh Hs]]].
        exists (String c t), r. rewrite Hh, append_assoc'. simpl. now rewrite Hs.
Qed.

(** When the string does not begin with the separator, the first piece
    begins with the first character of the string. *)
Lemma split_go_hd_cons :
  forall sep c s m,
    startswith sep (String c s) = false ->
    exists t r,
      hd "" (split_go sep m 0 "" (String c s)) = String c t /\ s = t ++ r.
Proof.
  intros sep c s m H. cbn [split_go]. destruct m as [| m].
  - destruct (split_go_hd sep s 0 ("" ++ String c "")) as [t [r [Hh Hs]]].
    exists t, r. now rewrite Hh.
  - rewrite H.
    destruct (split_go_hd sep s (S m) ("" ++ String c "")) as [t [r [Hh Hs]]].
    exists t, r. now rewrite Hh.
Qed.

End SplitFacts.

Section StripFacts.

Lemma lstrip_all_space : forall s, all_space s = true -> lstrip s = "".
Proof.
  induction s as [| c s IH]; intros H; [reflexivity |].
  simpl in H. apply andb_true_iff in H as [Hc Hs].
  cbn [lstrip]. rewrite Hc. now apply IH.
Qed.

Lemma strip_all_space : forall s, all_space s = true -> strip s = "".
Proof.
  intros s H. unfold strip. now rewrite lstrip_all_space.
Qed.

Lemma startswith_lstrip :
  forall p s,
    p <> "" -> no_space p = true ->
    startswith p s = true -> lstrip s = s.
Proof.
  intros p s Hne Hp H.
  destruct p as [| a p]; [congruence |].
  destruct s as [| c s]; [reflexivity |].
  rewrite startswith_cons in H. apply andb_true_iff in H as [Hc _].
  apply Ascii.eqb_eq in Hc. subst c.
  simpl in Hp. apply andb_true_iff in Hp as [Ha _].
  cbn [lstrip]. apply negb_true_iff in Ha. now rewrite Ha.
Qed.

Lemma startswith_rstrip :
  forall p s,
    no_space p = true ->
    startswith p s = true -> startswith p (rstrip s) = true.
Proof.
  induction p as [| a p IH]; intros s Hp H.
  - apply startswith_empty.
  - destruct s as [| c s]; [discriminate |].
    rewrite startswith_cons in H. apply andb_true_iff in H as [Hc Hs].
    simpl in Hp. apply andb_true_iff in Hp as [Ha Hp].
    apply Ascii.eqb_eq in Hc. subst c. apply negb_true_iff in Ha.
    specialize (IH s Hp Hs).
    cbn [rstrip]. destruct (rstrip s) as [| c' r'] eqn:Hr.
    + rewrite Ha. rewrite startswith_cons, Ascii.eqb_refl.
      destruct p; [reflexivity | discriminate].
    + rewrite startswith_cons, Ascii.eqb_refl. exact IH.
Qed.

Lemma startswith_strip :
  forall p s,
    p <> "" -> no_space p = true ->
    startswith p s = true -> startswith p (strip s) = true.
Proof.
  intros p s Hne Hp H. unfold strip.
  rewrite (startswith_lstrip p s Hne Hp H). now apply startswith_rstrip.
Qed.

Lemma contains_lstrip :
  forall n s,
    n <> "" -> no_space n = true ->
    contains n s = true -> contains n (lstrip s) = true.
Proof.
  intros n s Hne Hn. induction s as [| c s IH]; intros H; [exact H |].
  cbn [lstrip]. destruct (isspace c) eqn:Hc; [| exact H].
  rewrite contains_cons in H. apply orb_true_iff in H as [H | H].
  - destruct n as [| a n]; [congruence |].
    rewrite startswith_cons in H. apply andb_true_iff in H as [Ha _].
    apply Ascii.eqb_eq in Ha. subst a.
    simpl in Hn. rewrite Hc in Hn. discriminate.
  - now apply IH.
Qed.

Lemma contains_rstrip :
  forall n s,
    no_space n = true ->
    contains n s = true -> contains n (rstrip s) = true.
Proof.
  intros n s Hn. induction s as [| c s IH]; intros H; [exact H |].
  rewrite contains_cons in H. apply orb_true_iff in H as [H | H].
  - apply contains_startswith. now apply startswith_rstrip.
  - specialize (IH H). cbn [rstrip].
    destruct (rstrip s) as [| c' r'] eqn:Hr.
    + cbn [contains] in IH. rewrite orb_false_r in IH.
      assert (n = "") by (destruct n; [reflexivity | discriminate]).
      subst n. apply contains_startswith, startswith_empty.
    + rewrite contains_cons, IH. apply orb_true_r.
Qed.

Lemma contains_strip :
  forall n s,
    n <> "" -> no_space n = true ->
    contains n s = true -> contains n (strip s) = true.
Proof.
  intros. unfold strip. apply contains_rstrip; [assumption |].
  now apply contains_lstrip.
Qed.

End StripFacts.

(* ================================================================== *)
(** ** The probe *)

Section Probe.

Variable c : S3Client.

(** Every exception of the body meets one of the two handlers. *)
Lemma probe_returns :
  forall s3_url : option string,
    exists o : outcome, check_s3_url_access c s3_url = Returned o.
Proof.
  intros s3_url. unfold check_s3_url_access, try_except.
  destruct (check_s3_url_access_body c s3_url) as [o | e].
  - exists o. reflexivity.
  - destruct e; eexists; reflexivity.
Qed.

End Probe.

(* ================================================================== *)
(** ** The batch and the report *)

Section Batch.

Context {A : Type}.

Lemma remove_nth_perm :
  forall (l : list A) (i : nat) (d : A),
    (i < List.length l)%nat ->
    Permutation (nth i l d :: remove_nth i l) l.
Proof.
  induction l as [| x l IH]; intros i d Hi; simpl in Hi.
  - lia.
  - destruct i as [| j]; simpl.
    + apply Permutation_refl.
    + eapply perm_trans; [apply perm_swap |].
      apply perm_skip. apply IH. lia.
Qed.

Lemma as_completed_go_perm :
  forall (n k : nat) (sched : nat -> nat) (pending : list A),
    n = List.length pending ->
    Permutation (as_completed_go n k sched pending) pending.
Proof.
  induction n as [| n IH]; intros k sched pending Hn.
  - destruct pending; [apply perm_nil | discriminate].
  - destruct pending as [| x rest]; [discriminate |].
    cbn [as_completed_go].
    set (i := (sched k mod List.length (x :: rest))%nat).
    assert (Hi : (i < List.length (x :: rest))%nat)
      by (apply Nat.mod_upper_bound; discriminate).
    assert (Hp := remove_nth_perm (x :: rest) i x Hi).
    eapply perm_trans; [| exact Hp].
    apply perm_skip. apply IH.
    apply Permutation_length in Hp. simpl in Hp, Hn. simpl. lia.
Qed.

(** Whatever the scheduler, every future is yielded exactly once. *)
Lemma as_completed_perm :
  forall (sched : nat -> nat) (fs : list A),
    Permutation (as_completed sched fs) fs.
Proof.
  intros. apply as_completed_go_perm. reflexivity.
Qed.

Lemma collect_results_all_returned :
  forall fs : list (result A),
    Forall (fun f => exists a, f = Returned a) fs ->
    exists rs, collect_results fs = Returned rs
               /\ List.length rs = List.length fs.
Proof.
  induction fs as [| f fs IH]; intros H.
  - exists []. split; reflexivity.
  - inversion H as [| ? ? [a Ha] Hrest]; subst.
    destruct (IH Hrest) as [rs [Hrs Hlen]].
    exists (a :: rs). simpl. rewrite Hrs. split; [reflexivity | simpl; lia].
Qed.

End Batch.

Section Report.

(** C1.  The report of [main] on the two lines [bucket-a] and [bucket-b],
    when the future of the second line is yielded first: results are in
    the order of [as_completed] and [main] gives the result at position
    [i] the original of entry [i].  The row of [bucket-a] carries the URL and the
    refusal of [bucket-b], the row of [bucket-b] the URL and the success of
    [bucket-a]: rows are not joined to the outcome of their own line. *)
Theorem rows_joined_by_completion_position :
  main_rows bucket_a_client (fun _ => 1%nat) 5 ["bucket-a"; "bucket-b"]
  = Returned
      [ {| original_domain := "bucket-a";
           result_of := bucket_outcome "s3://bucket-b" "bucket-b" false
                                       "Access denied to bucket" |};
        {| original_domain := "bucket-b";
           result_of := bucket_outcome "s3://bucket-a" "bucket-a" true
                                       "Bucket accessible" |} ].
Proof.
  vm_compute. reflexivity.
Qed.

End Report.

(* ================================================================== *)
(** ** The probe and the batch when the client may raise anything *)

Section AnyRaise.

Import S3Base.

(** On a client of [S3] the two classes agree. *)
Lemma check_s3_url_access_lift :
  forall (c : S3Client) (s3_url : option string),
    S3Base.check_s3_url_access (lift_client c) s3_url
    = of_result (S3.check_s3_url_access c s3_url).
Proof.
  intros c s3_url.
  unfold S3Base.check_s3_url_access, S3Base.check_s3_url_access_body.
  unfold S3.check_s3_url_access, S3.check_s3_url_access_body.
  destruct (parse_s3_url s3_url) as [[b k] | e]; cbn [of_result bind Py.bind].
  - destruct (truthy k); cbn [negb].
    + unfold S3Base.check_object_access, S3.check_object_access.
      cbn [lift_client S3Base.head_object].
      destruct (S3.head_object c b k) as [[] | e]; [reflexivity |].
      destruct e; cbn;
        repeat match goal with
               | |- context [if ?t then _ else _] => destruct t
               end; reflexivity.
    + unfold S3Base.check_bucket_access, S3.check_bucket_access.
      cbn [lift_client S3Base.get_bucket_location].
      destruct (S3.get_bucket_location c b) as [[] | e]; [reflexivity |].
      destruct e; cbn;
        repeat match goal with
               | |- context [if ?t then _ else _] => destruct t
               end; reflexivity.
  - destruct e; reflexivity.
Qed.

Lemma collect_results_lift :
  forall (A : Type) (fs : list (result A)),
    S3Base.collect_results (map of_result fs)
    = of_result (S3.collect_results fs).
Proof.
  induction fs as [| f fs IH]; [reflexivity |].
  cbn [map S3Base.collect_results S3.collect_results].
  destruct f as [a | e]; cbn [of_result bind Py.bind]; [| reflexivity].
  rewrite IH. destruct (S3.collect_results fs); reflexivity.
Qed.

Lemma remove_nth_map :
  forall (A B : Type) (f : A -> B) (l : list A) (i : nat),
    remove_nth i (map f l) = map f (remove_nth i l).
Proof.
  induction l as [| x l IH]; intros i; [now destruct i |].
  destruct i as [| i]; cbn [map remove_nth]; [reflexivity |].
  now rewrite IH.
Qed.

Lemma as_completed_go_map :
  forall (A B : Type) (f : A -> B) (n k : nat) (sched : nat -> nat)
         (l : list A),
    as_completed_go n k sched (map f l)
    = map f (as_completed_go n k sched l).
Proof.
  induction n as [| n IH]; intros k sched l; [reflexivity |].
  destruct l as [| x l]; [reflexivity |].
  cbn [map as_completed_go].
  change (f x :: map f l) with (map f (x :: l)).
  rewrite length_map, remove_nth_map, IH, map_nth. reflexivity.
Qed.

Lemma check_multiple_urls_lift :
  forall (c : S3Client) sched s3_urls max_workers,
    S3Base.check_multiple_urls (lift_client c) sched s3_urls max_workers
    = of_result (S3.check_multiple_urls c sched s3_urls max_workers).
Proof.
  intros c sched s3_urls max_workers.
  unfold S3Base.check_multiple_urls, S3.check_multiple_urls.
  destruct (max_workers <=? 0)%Z; [reflexivity |]. cbv zeta.
  rewrite <- collect_results_lift. f_equal.
  unfold as_completed. rewrite !length_map, <- as_completed_go_map.
  f_equal. rewrite map_map. apply map_ext. intros u.
  apply check_s3_url_access_lift.
Qed.

Variable c : Client.

(** What leaves the probe was raised by its client call and is no
    [Exception]. *)
Lemma probe_abrupt :
  forall s3_url r,
    S3Base.check_s3_url_access c s3_url = Abrupt r ->
    (forall e, r <> IsException e)
    /\ exists b k,
         parse_s3_url s3_url = Returned (b, k)
         /\ S3Base.probe_call c b k = Abrupt r.
Proof.
  intros s3_url r H.
  unfold S3Base.check_s3_url_access, S3Base.check_s3_url_access_body in H.
  destruct (parse_s3_url s3_url) as [[b k] | e] eqn:Hp;
    cbn [of_result bind try_except] in H.
  - destruct (truthy k) eqn:Hk; cbn [negb] in H.
    + unfold S3Base.check_object_access in H.
      destruct (S3Base.head_object c b k) as [[] | r'] eqn:Hcall;
        [discriminate |].
      destruct r' as [e | | code |]; cbn in H.
      * destruct e; cbn in H;
          repeat match type of H with
                 | context [if ?t then _ else _] => destruct t
                 end; discriminate.
      * injection H as <-. split; [discriminate | exists b, k; split;
          [reflexivity
          | unfold S3Base.probe_call; rewrite Hk; exact Hcall]].
      * injection H as <-. split; [discriminate | exists b, k; split;
          [reflexivity
          | unfold S3Base.probe_call; rewrite Hk; exact Hcall]].
      * injection H as <-. split; [discriminate | exists b, k; split;
          [reflexivity
          | unfold S3Base.probe_call; rewrite Hk; exact Hcall]].
    + unfold S3Base.check_bucket_access in H.
      destruct (S3Base.get_bucket_location c b) as [[] | r'] eqn:Hcall;
        [discriminate |].
      destruct r' as [e | | code |]; cbn in H.
      * destruct e; cbn in H;
          repeat match type of H with
                 | context [if ?t then _ else _] => destruct t
                 end; discriminate.
      * injection H as <-. split; [discriminate | exists b, k; split;
          [reflexivity
          | unfold S3Base.probe_call; rewrite Hk; exact Hcall]].
      * injection H as <-. split; [discriminate | exists b, k; split;
          [reflexivity
          | unfold S3Base.probe_call; rewrite Hk; exact Hcall]].
      * injection H as <-. split; [discriminate | exists b, k; split;
          [reflexivity
          | unfold S3Base.probe_call; rewrite Hk; exact Hcall]].
  - destruct e; discriminate.
Qed.

(** With a client that raises subclasses of [Exception] only, the probe
    returns. *)
Lemma probe_normal :
  only_exceptions c ->
  forall s3_url, exists o, S3Base.check_s3_url_access c s3_url = Normal o.
Proof.
  intros [Hb Ho] s3_url.
  destruct (S3Base.check_s3_url_access c s3_url) as [o | r] eqn:H;
    [now exists o |].
  apply probe_abrupt in H as [Hr [b [k [_ Hcall]]]]. exfalso.
  unfold S3Base.probe_call in Hcall. destruct (truthy k).
  - specialize (Ho b k). rewrite Hcall in Ho.
    destruct r; [now apply (Hr e) | exact Ho ..].
  - specialize (Hb b). rewrite Hcall in Hb.
    destruct r; [now apply (Hr e) | exact Hb ..].
Qed.

End AnyRaise.

Section AnyRaiseClaims.

Import S3Base.




(** C2, as stated, fails twice: with a client whose bucket call is
    interrupted the batch raises [KeyboardInterrupt] and returns no list,
    and without a worker the pool is refused with a [ValueError]. *)
Lemma batch_raises :
  S3Base.check_multiple_urls interrupted_client (fun _ => 0%nat)
    [Some "s3://my-bucket"; Some "s3://other/file.txt"] 5
  = Abrupt KeyboardInterrupt
  /\ S3Base.check_multiple_urls timeout_client (fun _ => 0%nat)
       [Some "s3://my-bucket"; Some "s3://other/file.txt"] 0
     = Abrupt (IsException (ValueError "max_workers must be greater than 0")).
Proof. split; reflexivity. Qed.

Lemma collect_results_all_normal :
  forall (A : Type) (fs : list (completion A)),
    Forall (fun f => exists a, f = Normal a) fs ->
    exists rs, S3Base.collect_results fs = Normal rs
               /\ List.length rs = List.length fs.
Proof.
  induction fs as [| f fs IH]; intros H.
  - exists []. split; reflexivity.
  - inversion H as [| ? ? [a Ha] Hrest]; subst.
    destruct (IH Hrest) as [rs [Hrs Hlen]].
    exists (a :: rs). cbn [S3Base.collect_results bind]. rewrite Hrs.
    split; [reflexivity | cbn; lia].
Qed.

(** C2, amended.  For every list of URLs, every order in which
    [as_completed] yields the futures, at least one worker, and every
    storage client that raises subclasses of [Exception] only,
    [check_multiple_urls] returns a list of outcomes as long as the list of
    URLs. *)
Theorem check_multiple_urls_length_any :
  forall (c : Client) (sched : nat -> nat) (s3_urls : list (option string))
         (max_workers : Z),
    (1 <= max_workers)%Z ->
    only_exceptions c ->
    exists results,
      S3Base.check_multiple_urls c sched s3_urls max_workers = Normal results
      /\ List.length results = List.length s3_urls.
Proof.
  intros c sched s3_urls max_workers Hw Hc.
  unfold S3Base.check_multiple_urls.
  destruct (Z.leb_spec max_workers 0) as [Hle | _]; [lia |].
  set (fs := map (fun u => S3Base.check_s3_url_access c u) s3_urls).
  assert (Hperm := as_completed_perm sched fs).
  destruct (collect_results_all_normal _ (as_completed sched fs))
    as [rs [Hrs Hlen]].
  - apply (Permutation_Forall (Permutation_sym Hperm)).
    apply Forall_forall. intros f Hf. subst fs.
    apply in_map_iff in Hf as [u [<- _]]. now apply probe_normal.
  - exists rs. split; [exact Hrs |].
    rewrite Hlen, (Permutation_length Hperm). subst fs. apply length_map.
Qed.

(** Three URLs, one of them [None], and a bucket call that always times
    out. *)
Lemma check_multiple_urls_length_any_witness :
  exists results,
    S3Base.check_multiple_urls timeout_client (fun _ => 1%nat)
      [Some "s3://a"; None; Some "s3://b/k"] 5
    = Normal results
    /\ List.length results = 3%nat.
Proof.
  apply (check_multiple_urls_length_any timeout_client (fun _ => 1%nat)
           [Some "s3://a"; None; Some "s3://b/k"] 5);
    [lia | split; intros; exact I].
Defined.

(** C7, as stated, fails at the bucket [my-bucket] for a client error that
    is no [ClientError]: on a connection timeout the probe answers with
    type ['error'], an empty bucket and no error code, and on a
    [ValueError] with type ['invalid']. *)
Lemma bucket_call_fails_without_code :
  S3Base.check_s3_url_access timeout_client (Some "s3://my-bucket")
  = Normal {| url := Some "s3://my-bucket"; bucket := ""; key := "";
              accessible := false;
              message := "Unexpected error: Connect timeout on endpoint URL";
              type := "error" |}
  /\ S3Base.check_s3_url_access (lift_client value_error_client)
       (Some "s3://my-bucket")
     = Normal {| url := Some "s3://my-bucket"; bucket := ""; key := "";
                 accessible := false; message := "invalid endpoint";
                 type := "invalid" |}.
Proof. split; reflexivity. Qed.

Lemma check_bucket_level_any :
  forall (c : Client) s3_url b,
    parse_s3_url (Some s3_url) = Returned (b, "") ->
    S3Base.check_s3_url_access_body c (Some s3_url) =
      bind (S3Base.check_bucket_access c b)
           (fun '(accessible, message) =>
              Normal {| url := Some s3_url; bucket := b; key := "";
                        accessible := accessible; message := message;
                        type := "bucket" |}).
Proof.
  intros c s3_url b H. unfold S3Base.check_s3_url_access_body.
  rewrite H. reflexivity.
Qed.

(** C7, amended.  For every URL that [parse_s3_url] reads as a bucket [b]
    with an empty key, the probe makes the bucket-level call.  When the
    call succeeds the outcome is of type ['bucket'] and accessible; on the
    error code [NoSuchBucket] it is of type ['bucket'] and not accessible
    with the message "Bucket does not exist"; on [AccessDenied] and on
    [Forbidden] likewise with "Access denied to bucket" and
    "Forbidden - no permissions"; on any other error code of a
    [ClientError] likewise with "Error: " followed by that code.  A
    subclass of [Exception] that is no [ClientError] gives no bucket
    outcome: the answer is of type ['invalid'] for a [ValueError] and of
    type ['error'] otherwise, with the exception's text, without error
    code, and with an empty bucket.  An exception outside [Exception]
    leaves the probe. *)
Theorem bucket_level_probe_any :
  forall (c : Client) s3_url b,
    parse_s3_url (Some s3_url) = Returned (b, "") ->
    (S3Base.get_bucket_location c b = Normal tt ->
     S3Base.check_s3_url_access c (Some s3_url)
     = Normal (bucket_outcome s3_url b true "Bucket accessible"))
    /\ (forall m,
         S3Base.get_bucket_location c b
         = Abrupt (IsException (ClientError "NoSuchBucket" m)) ->
         S3Base.check_s3_url_access c (Some s3_url)
         = Normal (bucket_outcome s3_url b false "Bucket does not exist"))
    /\ (forall m,
         S3Base.get_bucket_location c b
         = Abrupt (IsException (ClientError "AccessDenied" m)) ->
         S3Base.check_s3_url_access c (Some s3_url)
         = Normal (bucket_outcome s3_url b false "Access denied to bucket"))
    /\ (forall m,
         S3Base.get_bucket_location c b
         = Abrupt (IsException (ClientError "Forbidden" m)) ->
         S3Base.check_s3_url_access c (Some s3_url)
         = Normal (bucket_outcome s3_url b false
                                  "Forbidden - no permissions"))
    /\ (forall error_code m,
         error_code <> "NoSuchBucket" ->
         error_code <> "AccessDenied" ->
         error_code <> "Forbidden" ->
         S3Base.get_bucket_location c b
         = Abrupt (IsException (ClientError error_code m)) ->
         S3Base.check_s3_url_access c (Some s3_url)
         = Normal (bucket_outcome s3_url b false ("Error: " ++ error_code)))
    /\ (forall e,
         (forall error_code m, e <> ClientError error_code m) ->
         S3Base.get_bucket_location c b = Abrupt (IsException e) ->
         S3Base.check_s3_url_access c (Some s3_url)
         = Normal (failure_outcome s3_url e))
    /\ (forall r,
         (forall e, r <> IsException e) ->
         S3Base.get_bucket_location c b = Abrupt r ->
         S3Base.check_s3_url_access c (Some s3_url) = Abrupt r).
Proof.
  intros c s3_url b Hparse.
  assert (Hbody := check_bucket_level_any c s3_url b Hparse).
  unfold S3Base.check_s3_url_access. rewrite Hbody. clear Hbody.
  unfold S3Base.check_bucket_access, bucket_outcome, failure_outcome.
  repeat split.
  - intros H. rewrite H. reflexivity.
  - intros m H. rewrite H. reflexivity.
  - intros m H. rewrite H. reflexivity.
  - intros m H. rewrite H. reflexivity.
  - intros code m H1 H2 H3 H. rewrite H. cbn [try_except bind].
    apply String.eqb_neq in H1, H2, H3. rewrite H1, H2, H3. reflexivity.
  - intros e He H. rewrite H.
    destruct e; try reflexivity. exfalso. now apply (He error_code msg).
  - intros r Hr H. rewrite H.
    destruct r; try reflexivity. exfalso. now apply (Hr e).
Qed.

(** The mapping at [s3://my-bucket], for a client that denies it. *)
Lemma bucket_level_probe_any_witness :
  parse_s3_url (Some "s3://my-bucket") = Returned ("my-bucket", "")
  /\ S3Base.check_s3_url_access (lift_client bucket_a_client)
       (Some "s3://my-bucket")
     = Normal (bucket_outcome "s3://my-bucket" "my-bucket" false
                              "Access denied to bucket").
Proof.
  split; [reflexivity |].
  apply (proj1 (proj2 (proj2
           (bucket_level_probe_any (lift_client bucket_a_client)
              "s3://my-bucket" "my-bucket" eq_refl)))
           "Access Denied").
  reflexivity.
Defined.

End AnyRaiseClaims.

(* ================================================================== *)
(** ** The normalizer *)

Section Normalizer.

Lemma s3_url_of_startswith :
  forall b p, startswith "s3://" (s3_url_of b p) = true.
Proof.
  intros. unfold s3_url_of. destruct (truthy p); exact (startswith_app "s3://" _).
Qed.

Lemma path_style_startswith :
  forall d u, path_style d = Some u -> startswith "s3://" u = true.
Proof.
  unfold path_style. intros d u H.
  destruct (2 <=? List.length (split_max "/" 2 d))%nat; [| discriminate].
  injection H as <-. apply s3_url_of_startswith.
Qed.

Lemma convert_startswith :
  forall raw u,
    convert_domain_to_s3_url raw = Some u -> startswith "s3://" u = true.
Proof.
  intros raw u. unfold convert_domain_to_s3_url. cbv zeta.
  fold (stripped raw). generalize (stripped raw) as d. intros d H.
  destruct (contains ".s3." d || contains ".s3-" d).
  { injection H as <-. apply s3_url_of_startswith. }
  destruct (startswith "s3." d || startswith "s3-" d).
  { now apply path_style_startswith in H. }
  destruct (contains "s3.amazonaws.com" d).
  { now apply path_style_startswith in H. }
  destruct (startswith "s3://" d) eqn:Hs.
  { injection H as <-. exact Hs. }
  destruct (contains "/" d); injection H as <-; exact (startswith_app "s3://" _).
Qed.

Lemma parse_s3_url_returns :
  forall u,
    startswith "s3://" u = true ->
    exists b k, parse_s3_url (Some u) = Returned (b, k).
Proof.
  intros u H. unfold parse_s3_url. rewrite H. cbn [negb].
  eexists. eexists. reflexivity.
Qed.

Lemma normalize_not_malformed :
  forall raw, malformed_input (normalize raw) = false.
Proof.
  intros raw. unfold normalize.
  destruct (convert_domain_to_s3_url raw) as [u |] eqn:Hc; [| reflexivity].
  destruct (parse_s3_url_returns u (convert_startswith raw u Hc)) as [b [k Hp]].
  now rewrite Hp.
Qed.

End Normalizer.

Section NormalizerClaims.

(** C8.  The three worked examples: the virtual-hosted URL, the path-style
    URL and the bare bucket name are normalized to the bucket and key the
    specification gives. *)
Theorem worked_examples :
  normalize "bucket.s3.us-west-2.amazonaws.com/path/file.txt"
  = Returned ("bucket", "path/file.txt")
  /\ normalize "s3.amazonaws.com/my-bucket/file.pdf"
     = Returned ("my-bucket", "file.pdf")
  /\ normalize "just-a-bucket-name" = Returned ("just-a-bucket-name", "").
Proof.
  repeat split; vm_compute; reflexivity.
Qed.

(** C3, as stated, fails at the empty string: the normalizer returns
    ["s3://"], read as an empty bucket and an empty key, and nothing is
    classified as malformed. *)
Lemma empty_input_is_accepted :
  convert_domain_to_s3_url "" = Some "s3://"
  /\ normalize "" = Returned ("", "")
  /\ malformed_input (normalize "") = false.
Proof.
  repeat split; vm_compute; reflexivity.
Qed.

(** C3, amended.  Normalization never fails with [MALFORMED_INPUT], for
    any input.  On the empty string and on a string of white space only,
    [convert_domain_to_s3_url] returns ["s3://"], which [parse_s3_url]
    reads as an empty bucket and an empty key; [load_urls_from_file] skips
    such a line, so that it does not reach the normalizer. *)
Theorem blank_input_not_malformed :
  forall raw,
    malformed_input (normalize raw) = false
    /\ (all_space raw = true ->
        convert_domain_to_s3_url raw = Some "s3://"
        /\ normalize raw = Returned ("", "")
        /\ load_urls_from_file [raw] = []).
Proof.
  intros raw. split; [apply normalize_not_malformed |].
  intros H. apply strip_all_space in H.
  assert (Hc : convert_domain_to_s3_url raw = Some "s3://").
  { unfold convert_domain_to_s3_url. rewrite H. reflexivity. }
  repeat split.
  - exact Hc.
  - unfold normalize. rewrite Hc. reflexivity.
  - unfold load_urls_from_file. cbn [load_lines]. rewrite H. reflexivity.
Qed.

(** A line of three spaces. *)
Lemma blank_input_not_malformed_witness :
  all_space "   " = true
  /\ convert_domain_to_s3_url "   " = Some "s3://"
  /\ normalize "   " = Returned ("", "")
  /\ load_urls_from_file ["   "] = [].
Proof.
  split; [reflexivity |].
  apply (proj2 (blank_input_not_malformed "   ")). reflexivity.
Defined.

End NormalizerClaims.

Section PathStyle.

Lemma strip_protocol_s :
  forall p s, startswith (String "s" p) s = true -> strip_protocol s = s.
Proof.
  intros p s H. destruct s as [| c s]; [discriminate |].
  rewrite startswith_cons in H. apply andb_true_iff in H as [Hc _].
  apply Ascii.eqb_eq in Hc. subst c.
  unfold strip_protocol. rewrite !startswith_cons. reflexivity.
Qed.

Lemma contains_strip_protocol :
  forall s,
    contains "s3.amazonaws.com" s = true ->
    contains "s3.amazonaws.com" (strip_protocol s) = true.
Proof.
  intros s H. unfold strip_protocol.
  destruct (startswith "https://" s) eqn:Hs.
  - rewrite (startswith_drop _ _ Hs) in H. cbn [String.length] in H.
    generalize dependent (drop 8 s). intros r H.
    cbn [append] in H.
    repeat (rewrite contains_cons, startswith_cons in H;
            cbn [Ascii.eqb Bool.eqb andb orb] in H).
    exact H.
  - destruct (startswith "http://" s) eqn:Hs'; [| exact H].
    rewrite (startswith_drop _ _ Hs') in H. cbn [String.length] in H.
    generalize dependent (drop 7 s). intros r H.
    cbn [append] in H.
    repeat (rewrite contains_cons, startswith_cons in H;
            cbn [Ascii.eqb Bool.eqb andb orb] in H).
    exact H.
Qed.

Lemma path_style_no_slash :
  forall d, contains "/" d = false -> path_style d = None.
Proof.
  intros d H. unfold path_style. rewrite (split_max_none "/" 2 d H).
  reflexivity.
Qed.

End PathStyle.

Section BrokenPathStyle.

Variable c : S3Client.

Lemma probe_none : check_s3_url_access c None = Returned none_outcome.
Proof. reflexivity. Qed.

(** C9, as stated, fails at [bucket-name.s3.amazonaws.com]: the input
    contains [s3.amazonaws.com] and no ["/"], and the virtual-hosted
    pattern, tried first, turns it into [s3://bucket-name]. *)
Lemma virtual_hosted_without_slash :
  contains "s3.amazonaws.com" "bucket-name.s3.amazonaws.com" = true
  /\ contains "/" (stripped "bucket-name.s3.amazonaws.com") = false
  /\ convert_domain_to_s3_url "bucket-name.s3.amazonaws.com"
     = Some "s3://bucket-name".
Proof.
  repeat split; vm_compute; reflexivity.
Qed.

(** C9, amended.  For every input that begins with ["s3."] or ["s3-"] or
    contains ["s3.amazonaws.com"], and whose stripped form contains no
    ["/"] and neither [".s3."] nor [".s3-"], [convert_domain_to_s3_url]
    returns [None], and the probe of that [None] answers with an outcome of
    type ['error']. *)
Theorem path_style_without_bucket :
  forall raw,
    startswith "s3." raw = true \/ startswith "s3-" raw = true
    \/ contains "s3.amazonaws.com" raw = true ->
    contains "/" (stripped raw) = false ->
    contains ".s3." (stripped raw) = false ->
    contains ".s3-" (stripped raw) = false ->
    convert_domain_to_s3_url raw = None
    /\ check_s3_url_access c (convert_domain_to_s3_url raw)
       = Returned none_outcome.
Proof.
  intros raw Hpat Hslash Hdot Hdash.
  assert (Hc : convert_domain_to_s3_url raw = None).
  { assert (Hd : startswith "s3." (stripped raw)
                 || startswith "s3-" (stripped raw) = true
                 \/ contains "s3.amazonaws.com" (stripped raw) = true).
    { unfold stripped. destruct Hpat as [H | [H | H]].
      - left. apply startswith_strip in H; [| discriminate | reflexivity].
        rewrite (strip_protocol_s _ _ H), H. reflexivity.
      - left. apply startswith_strip in H; [| discriminate | reflexivity].
        rewrite (strip_protocol_s _ _ H), H. apply orb_true_r.
      - right. apply contains_strip_protocol.
        apply contains_strip; [discriminate | reflexivity | exact H]. }
    unfold convert_domain_to_s3_url. cbv zeta. fold (stripped raw).
    rewrite Hdot, Hdash. cbn [orb].
    destruct Hd as [Hd | Hd].
    - rewrite Hd. now apply path_style_no_slash.
    - rewrite Hd.
      destruct (startswith "s3." (stripped raw) || startswith "s3-" (stripped raw));
        now apply path_style_no_slash. }
  split; [exact Hc |]. rewrite Hc. apply probe_none.
Qed.

End BrokenPathStyle.

(** The host [s3.amazonaws.com] alone. *)
Lemma path_style_without_bucket_witness :
  convert_domain_to_s3_url "s3.amazonaws.com" = None
  /\ check_s3_url_access
       {| get_bucket_location := fun _ => Returned tt;
          head_object := fun _ _ => Returned tt |}
       (convert_domain_to_s3_url "s3.amazonaws.com")
     = Returned none_outcome.
Proof.
  apply (path_style_without_bucket _ "s3.amazonaws.com");
    [left |..]; reflexivity.
Defined.

Section InvalidBranch.

(** C10, as stated, fails for a client whose bucket call raises a
    [ValueError]: the URL [s3://my-bucket] the normalizer built from
    [my-bucket] gets the ['invalid'] outcome. *)
Lemma invalid_reached_through_client :
  convert_domain_to_s3_url "my-bucket" = Some "s3://my-bucket"
  /\ check_s3_url_access value_error_client
       (convert_domain_to_s3_url "my-bucket")
     = Returned {| url := Some "s3://my-bucket"; bucket := ""; key := "";
                   accessible := false; message := "invalid endpoint";
                   type := "invalid" |}.
Proof.
  split; vm_compute; reflexivity.
Qed.

Lemma probe_not_invalid :
  forall c u,
    raises_no_value_error c ->
    startswith "s3://" u = true ->
    exists o, check_s3_url_access c (Some u) = Returned o
              /\ type o <> "invalid".
Proof.
  intros c u [Hb Ho] Hu.
  destruct (parse_s3_url_returns u Hu) as [b [k Hp]].
  unfold check_s3_url_access, check_s3_url_access_body.
  rewrite Hp. cbn [bind]. destruct (truthy k); cbn [negb].
  - unfold check_object_access.
    destruct (head_object c b k) as [[] | e] eqn:Hcall.
    + eexists. split; [reflexivity | discriminate].
    + destruct e; cbn [try_except bind];
        repeat match goal with
               | |- context [if ?t then _ else _] => destruct t
               end;
        try (eexists; split; [reflexivity | discriminate]).
      exfalso. eapply Ho. exact Hcall.
  - unfold check_bucket_access.
    destruct (get_bucket_location c b) as [[] | e] eqn:Hcall.
    + eexists. split; [reflexivity | discriminate].
    + destruct e; cbn [try_except bind];
        repeat match goal with
               | |- context [if ?t then _ else _] => destruct t
               end;
        try (eexists; split; [reflexivity | discriminate]).
      exfalso. eapply Hb. exact Hcall.
Qed.

(** C10, amended.  Every string [convert_domain_to_s3_url] returns starts
    with ["s3://"]; [parse_s3_url] therefore returns a bucket and a key on
    it and raises no [ValueError]; and [check_s3_url_access] does not
    answer ['invalid'] on it as long as the storage client raises no
    [ValueError] of its own. *)
Theorem convert_output_parses :
  forall raw u,
    convert_domain_to_s3_url raw = Some u ->
    startswith "s3://" u = true
    /\ (exists b k, parse_s3_url (Some u) = Returned (b, k))
    /\ (forall c,
          raises_no_value_error c ->
          exists o, check_s3_url_access c (Some u) = Returned o
                    /\ type o <> "invalid").
Proof.
  intros raw u H. apply convert_startswith in H.
  split; [exact H |]. split; [now apply parse_s3_url_returns |].
  intros c Hc. now apply probe_not_invalid.
Qed.

(** The URL built from a path-style input. *)
Lemma convert_output_parses_witness :
  startswith "s3://" "s3://my-bucket/file.pdf" = true
  /\ (exists b k,
        parse_s3_url (Some "s3://my-bucket/file.pdf") = Returned (b, k))
  /\ (forall c,
        raises_no_value_error c ->
        exists o,
          check_s3_url_access c (Some "s3://my-bucket/file.pdf") = Returned o
          /\ type o <> "invalid").
Proof.
  apply (convert_output_parses "s3.amazonaws.com/my-bucket/file.pdf").
  reflexivity.
Defined.

End InvalidBranch.

Section Canonical.

Lemma parse_s3_url_canonical :
  forall b k,
    contains "/" b = false ->
    parse_s3_url (Some ("s3://" ++ b ++ "/" ++ k)) = Returned (b, k).
Proof.
  intros b k Hb. unfold parse_s3_url.
  rewrite (startswith_app "s3://"). cbn [negb].
  change (drop 5 ("s3://" ++ b ++ "/" ++ k)) with (b ++ String "/" k).
  unfold split_max. rewrite (split_go_slash_cut b 0 "" k Hb), split_go_zero.
  reflexivity.
Qed.

(** A string in the form [s3://...] that no S3 host pattern matches and
    that [strip] leaves alone is returned as it is. *)
Lemma convert_canonical :
  forall u,
    startswith "s3://" u = true ->
    strip u = u ->
    contains ".s3." u = false ->
    contains ".s3-" u = false ->
    contains "s3.amazonaws.com" u = false ->
    convert_domain_to_s3_url u = Some u.
Proof.
  intros u Hu Hstrip Hdot Hdash Haws.
  unfold convert_domain_to_s3_url. cbv zeta.
  rewrite Hstrip, (strip_protocol_s _ _ Hu), Hdot, Hdash, Haws, Hu.
  cbn [orb].
  destruct u as [| c0 u]; [discriminate Hu |].
  destruct u as [| c1 u]; [rewrite startswith_cons in Hu; now rewrite andb_false_r in Hu |].
  destruct u as [| c2 u]; [rewrite !startswith_cons in Hu; now rewrite !andb_false_r in Hu |].
  rewrite !startswith_cons in Hu.
  apply andb_true_iff in Hu as [H0 Hu].
  apply andb_true_iff in Hu as [H1 Hu].
  apply andb_true_iff in Hu as [H2 _].
  apply Ascii.eqb_eq in H0, H1, H2. subst c0 c1 c2.
  rewrite !startswith_cons. reflexivity.
Qed.

(** C6.  The normalizer at the canonical string [s3://bucket/my.s3.backup]:
    the key holds [".s3."], so the test of the virtual-hosted pattern on the
    whole string wins over the branch "already in correct format".  The
    string is split at its first ["/"], the piece [s3:] is taken for the
    host and for the bucket, and the address is not
    [(bucket, my.s3.backup)]; normalizing the output again gives yet another
    address, so that the round trip fails. *)
Theorem canonical_with_marker_not_fixed :
  normalize ("s3://" ++ "bucket" ++ "/" ++ "my.s3.backup")
  = Returned ("s3:", "/bucket/my.s3.backup")
  /\ convert_domain_to_s3_url "s3://bucket/my.s3.backup"
     = Some "s3://s3://bucket/my.s3.backup"
  /\ normalize "s3://s3://bucket/my.s3.backup"
     = Returned ("s3:", "/s3://bucket/my.s3.backup").
Proof.
  repeat split; vm_compute; reflexivity.
Qed.

End Canonical.

Section BucketInvariant.

Lemma first_char_not_slash :
  forall c s, startswith "/" (String c s) = false -> Ascii.eqb "/" c = false.
Proof.
  intros c s H. rewrite startswith_cons, startswith_empty, andb_true_r in H.
  exact H.
Qed.

Lemma startswith_slash_cons :
  forall c s, Ascii.eqb "/" c = false -> startswith "/" (String c s) = false.
Proof.
  intros c s H. now rewrite startswith_cons, H.
Qed.

Lemma parse_first_char :
  forall c t b k,
    Ascii.eqb "/" c = false ->
    parse_s3_url (Some ("s3://" ++ String c t)) = Returned (b, k) ->
    b <> "".
Proof.
  intros c t b k Hc H. unfold parse_s3_url in H.
  rewrite (startswith_app "s3://") in H. cbn [negb] in H.
  change (drop 5 ("s3://" ++ String c t)) with (String c t) in H.
  unfold split_max in H.
  destruct (split_go_hd_cons "/" c t 1 (startswith_slash_cons c t Hc))
    as [t' [r [Hh _]]].
  rewrite Hh in H. injection H as <- _. discriminate.
Qed.

Lemma parse_empty_bucket :
  forall b k, parse_s3_url (Some "s3://") = Returned (b, k) -> k = "".
Proof.
  intros b k H. vm_compute in H. now injection H as _ <-.
Qed.

Lemma s3_url_of_cons :
  forall c t p, exists t', s3_url_of (String c t) p = "s3://" ++ String c t'.
Proof.
  intros c t p. unfold s3_url_of. destruct (truthy p).
  - exists (t ++ "/" ++ p). reflexivity.
  - exists t. reflexivity.
Qed.

(** The bucket of the virtual-hosted branch begins as the input does. *)
Lemma virtual_hosted_bucket :
  forall c s,
    startswith "/" (String c s) = false ->
    startswith ".s3." (String c s) = false ->
    startswith ".s3-" (String c s) = false ->
    let host := hd "" (split_max "/" 1 (String c s)) in
    exists t,
      (if contains ".s3." host then hd "" (split ".s3." host)
       else if contains ".s3-" host then hd "" (split ".s3-" host)
       else host) = String c t.
Proof.
  intros c s Hslash Hdot Hdash host.
  destruct (split_go_hd_cons "/" c s 1 Hslash) as [t [r [Hh Hs]]].
  fold (split_max "/" 1 (String c s)) in Hh. fold host in Hh.
  assert (Hpre : forall p, startswith p host = true ->
                           startswith p (String c s) = true).
  { intros p Hp. rewrite Hh in Hp. rewrite Hs.
    now apply (startswith_app_l p (String c t) r). }
  assert (Hcut : forall sep, startswith sep (String c s) = false ->
                             exists t', hd "" (split sep host) = String c t').
  { intros sep Hsep. rewrite Hh. unfold split, split_max.
    destruct (split_go_hd_cons sep c t (String.length (String c t)))
      as [t' [r' [Hh' _]]].
    - destruct (startswith sep (String c t)) eqn:E; [| reflexivity].
      rewrite <- Hh in E. apply Hpre in E. congruence.
    - now exists t'. }
  destruct (contains ".s3." host); [now apply Hcut |].
  destruct (contains ".s3-" host); [now apply Hcut |].
  now exists t.
Qed.

(** The bucket of the path-style branches. *)
Lemma path_style_bucket :
  forall d u b k,
    contains "//" d = false ->
    path_style d = Some u ->
    parse_s3_url (Some u) = Returned (b, k) ->
    k <> "" -> b <> "".
Proof.
  intros d u b k Hdd Hps Hparse Hk.
  destruct (contains "/" d) eqn:Hslash;
    [| rewrite (path_style_no_slash d Hslash) in Hps; discriminate].
  destruct (contains_slash_cut d Hslash) as [a [r [Hd Ha]]].
  unfold path_style, split_max in Hps. rewrite Hd in Hps.
  rewrite (split_go_slash_cut a 1 "" r Ha) in Hps.
  destruct r as [| c r].
  - cbn in Hps. injection Hps as <-.
    apply parse_empty_bucket in Hparse. contradiction.
  - assert (Hc : Ascii.eqb "/" c = false).
    { destruct (Ascii.eqb "/" c) eqn:E; [| reflexivity].
      apply Ascii.eqb_eq in E. subst c.
      rewrite Hd in Hdd.
      rewrite (contains_app_r "//" a (String "/" (String "/" r))) in Hdd;
        [discriminate |].
      apply contains_startswith. exact (startswith_app "//" r). }
    destruct (split_go_hd_cons "/" c r 1 (startswith_slash_cons c r Hc))
      as [t [r' [Hh _]]].
    destruct (split_go "/" 1 0 "" (String c r)) as [| x l]; [discriminate |].
    cbn [hd] in Hh. subst x.
    cbn [List.length Nat.leb nth] in Hps. injection Hps as <-.
    destruct (s3_url_of_cons c t
                (if (2 <? S (S (List.length l)))%nat
                 then nth 0 l "" else "")) as [t' Hu].
    rewrite Hu in Hparse. now apply parse_first_char in Hparse.
Qed.

End BucketInvariant.

Section BucketInvariantClaim.

Lemma s3_scheme_shape :
  forall d,
    startswith "s3://" d = true ->
    exists rest,
      d = "s3://" ++ rest
      /\ contains "//" d = true
      /\ startswith "s3." d || startswith "s3-" d = false
      /\ startswith "s3:///" d = startswith "/" rest.
Proof.
  intros d H. exists (drop 5 d).
  rewrite (startswith_drop _ _ H). cbn [String.length].
  change (drop 5 ("s3://" ++ drop 5 d)) with (drop 5 d).
  generalize (drop 5 d) as rest. intros rest.
  split; [reflexivity |]. cbn [append]. split; [| split].
  - rewrite !contains_cons, !startswith_cons.
    cbn [Ascii.eqb Bool.eqb andb orb].
    rewrite startswith_empty. reflexivity.
  - rewrite !startswith_cons. reflexivity.
  - rewrite !startswith_cons. reflexivity.
Qed.

(** C4, as stated, fails at ["/foo"]: the input is accepted and its
    address has the key [foo] and an empty bucket. *)
Lemma key_without_bucket :
  normalize "/foo" = Returned ("", "foo")
  /\ malformed_input (normalize "/foo") = false.
Proof.
  split; vm_compute; reflexivity.
Qed.

(** C4, amended.  For every input that normalization accepts and whose
    stripped form begins with none of ["/"], [".s3."], [".s3-"], and either
    contains no ["//"] or is in the form [s3://bucket...] with a non-empty
    bucket and without ["s3.amazonaws.com"]: if the key of the address is
    not empty then its bucket is not empty. *)
Theorem key_needs_bucket :
  forall raw b k,
    bucket_segment_present (stripped raw) = true ->
    normalize raw = Returned (b, k) ->
    k <> "" -> b <> "".
Proof.
  intros raw b k Hseg Hn Hk.
  unfold normalize, convert_domain_to_s3_url in Hn. cbv zeta in Hn.
  fold (stripped raw) in Hn. revert Hseg Hn.
  generalize (stripped raw) as d. intros d Hseg Hn.
  unfold bucket_segment_present in Hseg.
  apply andb_true_iff in Hseg as [Hseg Hshape].
  apply andb_true_iff in Hseg as [Hseg Hdash].
  apply andb_true_iff in Hseg as [Hslash Hdot].
  apply negb_true_iff in Hslash, Hdot, Hdash.
  assert (Hcanon :
            contains "//" d = true ->
            exists rest,
              d = "s3://" ++ rest /\ startswith "/" rest = false
              /\ startswith "s3." d || startswith "s3-" d = false
              /\ contains "s3.amazonaws.com" d = false).
  { intros Hdd. rewrite Hdd in Hshape. cbn [negb orb] in Hshape.
    apply andb_true_iff in Hshape as [Hshape H3].
    apply andb_true_iff in Hshape as [H1 H2].
    apply negb_true_iff in H2, H3.
    destruct (s3_scheme_shape d H1) as [rest [Hd [_ [Hhost Hs]]]].
    exists rest. rewrite <- Hs. now repeat split. }
  clear Hshape.
  destruct (contains ".s3." d || contains ".s3-" d) eqn:Hvirtual.
  { (* virtual-hosted style *)
    destruct d as [| c s]; [discriminate |].
    destruct (virtual_hosted_bucket c s Hslash Hdot Hdash) as [t Hb].
    cbv zeta in Hb. rewrite Hb in Hn.
    match type of Hn with
    | parse_s3_url (Some (s3_url_of _ ?p)) = _ =>
        destruct (s3_url_of_cons c t p) as [t' Hu]
    end.
    rewrite Hu in Hn.
    apply (parse_first_char c t' b k); [| exact Hn].
    now apply first_char_not_slash in Hslash. }
  destruct (startswith "s3." d || startswith "s3-" d) eqn:Hhost.
  { (* path style, host s3. or s3- *)
    destruct (path_style d) as [u |] eqn:Hps; [| discriminate].
    apply (path_style_bucket d u b k); try assumption.
    destruct (contains "//" d) eqn:Hdd; [| reflexivity].
    destruct (Hcanon eq_refl) as [_ [_ [_ [E _]]]]. congruence. }
  destruct (contains "s3.amazonaws.com" d) eqn:Haws.
  { (* path style, host s3.amazonaws.com *)
    destruct (path_style d) as [u |] eqn:Hps; [| discriminate].
    apply (path_style_bucket d u b k); try assumption.
    destruct (contains "//" d) eqn:Hdd; [| reflexivity].
    destruct (Hcanon eq_refl) as [_ [_ [_ [_ E]]]]. congruence. }
  destruct (startswith "s3://" d) eqn:Hscheme.
  { (* already an s3:// URL *)
    destruct (s3_scheme_shape d Hscheme) as [_ [_ [Hdd _]]].
    destruct (Hcanon Hdd) as [rest [Hd [Hrest _]]]. subst d.
    destruct rest as [| c r].
    - apply parse_empty_bucket in Hn. contradiction.
    - apply (parse_first_char c r b k); [| exact Hn].
      now apply first_char_not_slash in Hrest. }
  (* a bare bucket name, with or without a key *)
  destruct d as [| c s].
  { apply parse_empty_bucket in Hn. contradiction. }
  assert (Hc : Ascii.eqb "/" c = false)
    by now apply first_char_not_slash in Hslash.
  destruct (contains "/" (String c s)).
  - destruct (split_go_hd_cons "/" c s 1 Hslash) as [t [r [Hh _]]].
    fold (split_max "/" 1 (String c s)) in Hh. rewrite Hh in Hn.
    now apply (parse_first_char c _ b k) in Hn.
  - now apply (parse_first_char c _ b k) in Hn.
Qed.

(** A virtual-hosted URL with its protocol. *)
Lemma key_needs_bucket_witness :
  bucket_segment_present (stripped "https://my-bucket.s3.amazonaws.com/a/b")
  = true
  /\ normalize "https://my-bucket.s3.amazonaws.com/a/b"
     = Returned ("my-bucket", "a/b")
  /\ "my-bucket" <> "".
Proof.
  split; [reflexivity |]. split; [reflexivity |].
  apply (key_needs_bucket "https://my-bucket.s3.amazonaws.com/a/b"
                          "my-bucket" "a/b");
    [reflexivity | reflexivity | discriminate].
Defined.

End BucketInvariantClaim.

(* ================================================================== *)
(** ** More on the probe *)

Section ProbeOutcomes.

Variable c : S3Client.

Lemma check_object_level :
  forall s3_url b k,
    parse_s3_url (Some s3_url) = Returned (b, k) ->
    k <> "" ->
    check_s3_url_access_body c (Some s3_url) =
      ('(accessible, message) <- check_object_access c b k ;;
       Returned {| url := Some s3_url; bucket := b; key := k;
                   accessible := accessible; message := message;
                   type := "object" |}).
Proof.
  intros s3_url b k H Hk. unfold check_s3_url_access_body. rewrite H.
  cbn [bind]. destruct k; [congruence | reflexivity].
Qed.

(** X1.  For every URL that [parse_s3_url] reads with a non-empty key, the
    probe makes the object-level call and answers with type ['object']:
    accessible when the call succeeds; not accessible with "Object does not
    exist" on [NoSuchKey], "Bucket does not exist" on [NoSuchBucket],
    "Access denied to object" on [AccessDenied] and on [Forbidden], and
    "Error: " followed by the code on any other error code. *)
Theorem object_level_probe :
  forall s3_url b k,
    parse_s3_url (Some s3_url) = Returned (b, k) ->
    k <> "" ->
    (head_object c b k = Returned tt ->
     check_s3_url_access c (Some s3_url)
     = Returned (object_outcome s3_url b k true "Object accessible"))
    /\ (forall m,
         head_object c b k = Raised (ClientError "NoSuchKey" m) ->
         check_s3_url_access c (Some s3_url)
         = Returned (object_outcome s3_url b k false "Object does not exist"))
    /\ (forall m,
         head_object c b k = Raised (ClientError "NoSuchBucket" m) ->
         check_s3_url_access c (Some s3_url)
         = Returned (object_outcome s3_url b k false "Bucket does not exist"))
    /\ (forall m,
         head_object c b k = Raised (ClientError "AccessDenied" m) ->
         check_s3_url_access c (Some s3_url)
         = Returned (object_outcome s3_url b k false "Access denied to object"))
    /\ (forall m,
         head_object c b k = Raised (ClientError "Forbidden" m) ->
         check_s3_url_access c (Some s3_url)
         = Returned (object_outcome s3_url b k false "Access denied to object"))
    /\ (forall error_code m,
         error_code <> "NoSuchKey" ->
         error_code <> "NoSuchBucket" ->
         error_code <> "AccessDenied" ->
         error_code <> "Forbidden" ->
         head_object c b k = Raised (ClientError error_code m) ->
         check_s3_url_access c (Some s3_url)
         = Returned (object_outcome s3_url b k false ("Error: " ++ error_code))).
Proof.
  intros s3_url b k Hparse Hk.
  assert (Hbody := check_object_level s3_url b k Hparse Hk).
  unfold check_s3_url_access. rewrite Hbody. clear Hbody.
  unfold check_object_access, object_outcome.
  repeat split.
  - intros H. rewrite H. reflexivity.
  - intros m H. rewrite H. reflexivity.
  - intros m H. rewrite H. reflexivity.
  - intros m H. rewrite H. reflexivity.
  - intros m H. rewrite H. reflexivity.
  - intros code m H1 H2 H3 H4 H. rewrite H. cbn [try_except bind].
    apply String.eqb_neq in H1, H2, H3, H4. rewrite H1, H2, H3, H4.
    reflexivity.
Qed.

End ProbeOutcomes.

(** The mapping at [s3://my-bucket/file.pdf], for a client without the
    object. *)
Lemma object_level_probe_witness :
  check_s3_url_access
    {| get_bucket_location := fun _ => Returned tt;
       head_object := fun _ _ => Raised (ClientError "NoSuchKey" "Not Found") |}
    (Some "s3://my-bucket/file.pdf")
  = Returned (object_outcome "s3://my-bucket/file.pdf" "my-bucket" "file.pdf"
                             false "Object does not exist").
Proof.
  apply (proj1 (proj2
           (object_level_probe _ "s3://my-bucket/file.pdf" "my-bucket"
                               "file.pdf" eq_refl ltac:(discriminate)))
           "Not Found").
  reflexivity.
Defined.

Section ProbeSoundness.

Variable c : S3Client.

Lemma check_bucket_access_true :
  forall b m,
    check_bucket_access c b = Returned (true, m) ->
    get_bucket_location c b = Returned tt.
Proof.
  intros b m. unfold check_bucket_access.
  destruct (get_bucket_location c b) as [[] | e]; [reflexivity |].
  destruct e; cbn [try_except bind];
    repeat match goal with
           | |- context [if ?t then _ else _] => destruct t
           end; discriminate.
Qed.

Lemma check_object_access_true :
  forall b k m,
    check_object_access c b k = Returned (true, m) ->
    head_object c b k = Returned tt.
Proof.
  intros b k m. unfold check_object_access.
  destruct (head_object c b k) as [[] | e]; [reflexivity |].
  destruct e; cbn [try_except bind];
    repeat match goal with
           | |- context [if ?t then _ else _] => destruct t
           end; discriminate.
Qed.

(** X2.  The probe never reports an address accessible unless its client
    call succeeded: an accessible outcome carries the URL it was given and
    the bucket and key [parse_s3_url] reads in it, and either the key is
    empty, the type is ['bucket'] and [get_bucket_location] returned, or the
    key is not empty, the type is ['object'] and [head_object] returned. *)
Theorem accessible_sound :
  forall s3_url o,
    check_s3_url_access c s3_url = Returned o ->
    accessible o = true ->
    url o = s3_url
    /\ parse_s3_url s3_url = Returned (bucket o, key o)
    /\ ((key o = "" /\ type o = "bucket"
         /\ get_bucket_location c (bucket o) = Returned tt)
        \/ (key o <> "" /\ type o = "object"
            /\ head_object c (bucket o) (key o) = Returned tt)).
Proof.
  intros s3_url o H Hacc.
  unfold check_s3_url_access, check_s3_url_access_body in H.
  destruct (parse_s3_url s3_url) as [[b k] | e] eqn:Hp.
  - cbn [bind] in H. destruct k as [| a k]; cbn [truthy negb] in H.
    + destruct (check_bucket_access c b) as [[acc m] | e] eqn:Hb.
      * cbn in H. injection H as <-. cbn in Hacc. subst acc.
        cbn. split; [reflexivity |]. split; [reflexivity |]. left.
        repeat split. now apply check_bucket_access_true in Hb.
      * destruct e; cbn in H; injection H as <-; discriminate.
    + destruct (check_object_access c b (String a k)) as [[acc m] | e] eqn:Hb.
      * cbn in H. injection H as <-. cbn in Hacc. subst acc.
        cbn. split; [reflexivity |]. split; [reflexivity |]. right.
        split; [discriminate |]. split; [reflexivity |].
        now apply check_object_access_true in Hb.
      * destruct e; cbn in H; injection H as <-; discriminate.
  - destruct e; cbn in H; injection H as <-; discriminate.
Qed.

(** X3.  A URL that does not start with [s3://] is answered without any
    call to the client: the outcome is of type ['invalid'], not accessible,
    with empty bucket and key, and its message names the URL. *)
Theorem not_s3_url_invalid :
  forall u,
    startswith "s3://" u = false ->
    check_s3_url_access c (Some u)
    = Returned {| url := Some u; bucket := ""; key := "";
                  accessible := false;
                  message := "Invalid S3 URL format: " ++ u;
                  type := "invalid" |}.
Proof.
  intros u H. unfold check_s3_url_access, check_s3_url_access_body.
  unfold parse_s3_url. rewrite H. reflexivity.
Qed.

End ProbeSoundness.

(** An open bucket, reported accessible. *)
Lemma accessible_sound_witness :
  url (bucket_outcome "s3://bucket-a" "bucket-a" true "Bucket accessible")
  = Some "s3://bucket-a"
  /\ parse_s3_url (Some "s3://bucket-a") = Returned ("bucket-a", "")
  /\ (("" = "" /\ "bucket" = "bucket"
       /\ get_bucket_location bucket_a_client "bucket-a" = Returned tt)
      \/ ("" <> "" /\ "bucket" = "object"
          /\ head_object bucket_a_client "bucket-a" "" = Returned tt)).
Proof.
  apply (accessible_sound bucket_a_client (Some "s3://bucket-a")
           (bucket_outcome "s3://bucket-a" "bucket-a" true "Bucket accessible"));
    reflexivity.
Defined.

(** A web address handed to the probe as it is. *)
Lemma not_s3_url_invalid_witness :
  check_s3_url_access bucket_a_client (Some "https://example.com/x")
  = Returned {| url := Some "https://example.com/x"; bucket := ""; key := "";
                accessible := false;
                message := "Invalid S3 URL format: https://example.com/x";
                type := "invalid" |}.
Proof.
  apply (not_s3_url_invalid bucket_a_client "https://example.com/x").
  reflexivity.
Defined.

(* ================================================================== *)
(** ** More on the batch and the report *)

Section BatchOrder.

Variable c : S3Client.

Lemma probe_url :
  forall s3_url o,
    check_s3_url_access c s3_url = Returned o -> url o = s3_url.
Proof.
  intros s3_url o H.
  unfold check_s3_url_access, check_s3_url_access_body in H.
  destruct (parse_s3_url s3_url) as [[b k] | e].
  - cbn [bind] in H. destruct (truthy k); cbn [negb] in H.
    + destruct (check_object_access c b k) as [[acc m] | e];
        [| destruct e]; cbn in H; injection H as <-; reflexivity.
    + destruct (check_bucket_access c b) as [[acc m] | e];
        [| destruct e]; cbn in H; injection H as <-; reflexivity.
  - destruct e; cbn in H; injection H as <-; reflexivity.
Qed.

Lemma collect_results_returned :
  forall (A : Type) (fs : list (result A)) (rs : list A),
    collect_results fs = Returned rs -> fs = map Returned rs.
Proof.
  induction fs as [| f fs IH]; intros rs H.
  - injection H as <-. reflexivity.
  - cbn [collect_results] in H. destruct f as [a | e]; [| discriminate].
    cbn [bind] in H. destruct (collect_results fs) as [rs' | e];
      [| discriminate].
    cbn [bind] in H. injection H as <-. cbn [map]. f_equal. now apply IH.
Qed.

(** With a worker, the batch returns one outcome per URL. *)
Lemma batch_returns :
  forall sched s3_urls max_workers,
    (1 <= max_workers)%Z ->
    exists results,
      check_multiple_urls c sched s3_urls max_workers = Returned results
      /\ List.length results = List.length s3_urls.
Proof.
  intros sched s3_urls max_workers Hw. unfold check_multiple_urls.
  destruct (Z.leb_spec max_workers 0) as [Hle | _]; [lia |].
  set (fs := map (fun u => check_s3_url_access c u) s3_urls).
  assert (Hperm := as_completed_perm sched fs).
  destruct (collect_results_all_returned (as_completed sched fs))
    as [rs [Hrs Hlen]].
  - apply (Permutation_Forall (Permutation_sym Hperm)).
    apply Forall_forall. intros f Hf. subst fs.
    apply in_map_iff in Hf as [u [<- _]]. apply probe_returns.
  - exists rs. split; [exact Hrs |].
    rewrite Hlen, (Permutation_length Hperm). subst fs. apply length_map.
Qed.

(** The results are the probes' answers, rearranged. *)
Lemma batch_perm :
  forall sched s3_urls max_workers results,
    check_multiple_urls c sched s3_urls max_workers = Returned results ->
    Permutation (map Returned results)
                (map (fun u => check_s3_url_access c u) s3_urls)
    /\ Permutation (map url results) s3_urls.
Proof.
  intros sched s3_urls max_workers results H.
  unfold check_multiple_urls in H.
  destruct (max_workers <=? 0)%Z; [discriminate |].
  apply collect_results_returned in H.
  assert (Hperm := as_completed_perm sched
                     (map (fun u => check_s3_url_access c u) s3_urls)).
  rewrite H in Hperm. split; [exact Hperm |].
  apply (Permutation_map result_url) in Hperm.
  rewrite !map_map in Hperm. cbn [result_url] in Hperm.
  erewrite (map_ext_in _ (fun u => u)) in Hperm.
  - now rewrite map_id in Hperm.
  - intros u _. destruct (probe_returns c u) as [o Ho]. rewrite Ho.
    cbn [result_url]. now apply probe_url.
Qed.

(** X5.  Whatever the order of completion, the results of
    [check_multiple_urls] are the outcomes of the probes of the submitted
    URLs, each one once: the results are a rearrangement of the probes'
    answers, and their URLs a rearrangement of the submitted URLs. *)
Theorem check_multiple_urls_perm :
  forall sched s3_urls max_workers results,
    check_multiple_urls c sched s3_urls max_workers = Returned results ->
    Permutation (map Returned results)
                (map (fun u => check_s3_url_access c u) s3_urls)
    /\ Permutation (map url results) s3_urls.
Proof.
  exact batch_perm.
Qed.

Lemma remove_nth_0 :
  forall (A : Type) (x : A) (l : list A), remove_nth 0 (x :: l) = l.
Proof. reflexivity. Qed.

Lemma as_completed_go_in_order :
  forall (A : Type) (fs : list A) (k : nat),
    as_completed_go (List.length fs) k (fun _ => 0%nat) fs = fs.
Proof.
  induction fs as [| f fs IH]; intros k; [reflexivity |].
  cbn [List.length as_completed_go].
  rewrite Nat.Div0.mod_0_l. cbn [nth remove_nth]. f_equal. apply IH.
Qed.

(** Futures yielded in the order of submission keep the order. *)
Lemma batch_in_order :
  forall s3_urls max_workers results,
    check_multiple_urls c (fun _ => 0%nat) s3_urls max_workers
    = Returned results ->
    map Returned results = map (fun u => check_s3_url_access c u) s3_urls
    /\ map url results = s3_urls.
Proof.
  intros s3_urls max_workers results H.
  unfold check_multiple_urls, as_completed in H.
  destruct (max_workers <=? 0)%Z; [discriminate |].
  rewrite as_completed_go_in_order in H.
  apply collect_results_returned in H.
  split; [now symmetry |].
  apply (f_equal (map result_url)) in H. rewrite !map_map in H.
  cbn [result_url] in H. etransitivity; [symmetry; exact H |].
  rewrite <- (map_id s3_urls) at 2. apply map_ext.
  intros u. destruct (probe_returns c u) as [o Ho]. rewrite Ho.
  cbn [result_url]. now apply probe_url.
Qed.

(** X6.  When [as_completed] yields the futures in the order in which
    they were submitted, which nothing in the source ensures, the results
    of [check_multiple_urls] are in the order of the URLs: result [i] is
    the outcome of the probe of URL [i]. *)
Theorem check_multiple_urls_in_order :
  forall s3_urls max_workers results,
    check_multiple_urls c (fun _ => 0%nat) s3_urls max_workers
    = Returned results ->
    map Returned results = map (fun u => check_s3_url_access c u) s3_urls
    /\ map url results = s3_urls.
Proof.
  exact batch_in_order.
Qed.

End BatchOrder.

(** Two buckets and a scheduler that yields the second future first. *)
Lemma check_multiple_urls_perm_witness :
  Permutation
    (map Returned
       [ bucket_outcome "s3://bucket-b" "bucket-b" false
                        "Access denied to bucket";
         bucket_outcome "s3://bucket-a" "bucket-a" true "Bucket accessible" ])
    (map (fun u => check_s3_url_access bucket_a_client u)
         [Some "s3://bucket-a"; Some "s3://bucket-b"])
  /\ Permutation
       (map url
          [ bucket_outcome "s3://bucket-b" "bucket-b" false
                           "Access denied to bucket";
            bucket_outcome "s3://bucket-a" "bucket-a" true
                           "Bucket accessible" ])
       [Some "s3://bucket-a"; Some "s3://bucket-b"].
Proof.
  apply (check_multiple_urls_perm bucket_a_client (fun _ => 1%nat)
           [Some "s3://bucket-a"; Some "s3://bucket-b"] 5).
  reflexivity.
Defined.

(** The same two buckets, yielded in the order of submission. *)
Lemma check_multiple_urls_in_order_witness :
  map Returned
    [ bucket_outcome "s3://bucket-a" "bucket-a" true "Bucket accessible";
      bucket_outcome "s3://bucket-b" "bucket-b" false
                     "Access denied to bucket" ]
  = map (fun u => check_s3_url_access bucket_a_client u)
        [Some "s3://bucket-a"; Some "s3://bucket-b"]
  /\ map url
       [ bucket_outcome "s3://bucket-a" "bucket-a" true "Bucket accessible";
         bucket_outcome "s3://bucket-b" "bucket-b" false
                        "Access denied to bucket" ]
     = [Some "s3://bucket-a"; Some "s3://bucket-b"].
Proof.
  apply (check_multiple_urls_in_order bucket_a_client
           [Some "s3://bucket-a"; Some "s3://bucket-b"] 5).
  reflexivity.
Defined.

Section ReportRows.

Variable c : S3Client.

Lemma skipn_nth_error :
  forall (A : Type) (l : list A) (i : nat) (d : A),
    nth_error l i = Some d -> skipn i l = d :: skipn (S i) l.
Proof.
  induction l as [| x l IH]; intros i d H.
  - destruct i; discriminate.
  - destruct i as [| i].
    + injection H as ->. reflexivity.
    + cbn [nth_error] in H. cbn [skipn]. now apply IH.
Qed.

(** The loop of [main] stays within [url_data] as long as there are no more
    results than entries. *)
Lemma attach_originals_spec :
  forall (results : list outcome) (url_data : list url_entry) (i : nat),
    (i + List.length results <= List.length url_data)%nat ->
    exists rows,
      attach_originals url_data i results = Returned rows
      /\ map result_of rows = results
      /\ map original_domain rows
         = map original (firstn (List.length results) (skipn i url_data)).
Proof.
  induction results as [| r results IH]; intros url_data i Hlen.
  - exists []. repeat split.
  - cbn [List.length] in Hlen. cbn [attach_originals].
    destruct (nth_error url_data i) as [data |] eqn:Hnth.
    + destruct (IH url_data (S i)) as [rows [Hrows [Hres Horig]]]; [lia |].
      rewrite Hrows. cbn [bind]. eexists. split; [reflexivity |].
      cbn [map result_of original_domain]. split; [now rewrite Hres |].
      rewrite (skipn_nth_error _ _ _ _ Hnth). cbn [List.length firstn map].
      now rewrite Horig.
    + apply nth_error_None in Hnth. lia.
Qed.

(** X7.  With at least one worker, [main] builds one row per entry of the
    input list and never runs out of [url_data]: the originals of the rows
    are the originals of the entries, in the order of the input, and the
    results in the rows are the outcomes of the probes of the entries'
    URLs, each one once, in the order of completion. *)
Theorem main_rows_returns :
  forall sched workers lines,
    (1 <= workers)%Z ->
    exists rows,
      main_rows c sched workers lines = Returned rows
      /\ map original_domain rows
         = map original (load_urls_from_file lines)
      /\ Permutation
           (map (fun r => Returned (result_of r)) rows)
           (map (fun e => check_s3_url_access c (s3_url e))
                (load_urls_from_file lines)).
Proof.
  intros sched workers lines Hw. unfold main_rows. cbv zeta.
  destruct (load_urls_from_file lines) as [| e0 es] eqn:Hload.
  { exists []. repeat split. apply perm_nil. }
  rewrite <- Hload. clear e0 es Hload.
  set (url_data := load_urls_from_file lines).
  destruct (batch_returns c sched (map s3_url url_data)
                                       workers Hw) as [results [Hres Hlen]].
  rewrite Hres. cbn [bind]. rewrite length_map in Hlen.
  destruct (attach_originals_spec results url_data 0) as [rows [Hr [Hm Ho]]];
    [lia |].
  exists rows. split; [exact Hr |]. split.
  - rewrite Ho, Hlen. cbn [skipn]. now rewrite firstn_all.
  - apply batch_perm in Hres as [Hperm _].
    rewrite <- Hm, !map_map in Hperm. exact Hperm.
Qed.

Lemma map_pair_eq :
  forall (A B X Y : Type) (f : A -> X) (g : A -> Y) (f' : B -> X)
         (g' : B -> Y) (l : list A) (l' : list B),
    map f l = map f' l' -> map g l = map g' l' ->
    map (fun a => (f a, g a)) l = map (fun b => (f' b, g' b)) l'.
Proof.
  induction l as [| a l IH]; intros l' Hf Hg.
  - destruct l'; [reflexivity | discriminate].
  - destruct l' as [| b l']; [discriminate |].
    cbn [map] in *. injection Hf as Hf1 Hf2. injection Hg as Hg1 Hg2.
    rewrite Hf1, Hg1. f_equal. now apply IH.
Qed.

(** X8.  When [as_completed] yields the futures in the order in which
    they were submitted, which nothing in the source ensures, every row of
    the report pairs the original of an input line with the outcome of the
    probe of that very line, in the order of the input. *)
Theorem main_rows_in_order :
  forall workers lines rows,
    main_rows c (fun _ => 0%nat) workers lines = Returned rows ->
    map (fun r => (original_domain r, Returned (result_of r))) rows
    = map (fun e => (original e, check_s3_url_access c (s3_url e)))
          (load_urls_from_file lines).
Proof.
  intros workers lines rows H. unfold main_rows in H. cbv zeta in H.
  destruct (load_urls_from_file lines) as [| e0 es] eqn:Hload.
  { injection H as <-. reflexivity. }
  rewrite <- Hload in *. clear e0 es Hload.
  set (url_data := load_urls_from_file lines) in *.
  destruct (check_multiple_urls c (fun _ => 0%nat) (map s3_url url_data)
                                workers) as [results | e] eqn:Hres;
    [| discriminate].
  cbn [bind] in H.
  apply batch_in_order in Hres as [Hres _].
  assert (Hlen : List.length results = List.length url_data).
  { apply (f_equal (@List.length _)) in Hres.
    now rewrite !length_map in Hres. }
  destruct (attach_originals_spec results url_data 0) as [rows' [Hr [Hm Ho]]];
    [lia |].
  rewrite Hr in H. injection H as <-.
  apply map_pair_eq.
  - rewrite Ho, Hlen. cbn [skipn]. now rewrite firstn_all.
  - rewrite <- Hm, !map_map in Hres. exact Hres.
Qed.

End ReportRows.

(** Two buckets around a comment and a blank line, the second probe
    completing first. *)
Lemma main_rows_returns_witness :
  exists rows,
    main_rows bucket_a_client (fun _ => 1%nat) 5
              ["bucket-a"; "# a comment"; ""; "bucket-b"]
    = Returned rows
    /\ map original_domain rows
       = map original
           (load_urls_from_file ["bucket-a"; "# a comment"; ""; "bucket-b"])
    /\ Permutation
         (map (fun r => Returned (result_of r)) rows)
         (map (fun e => check_s3_url_access bucket_a_client (s3_url e))
              (load_urls_from_file
                 ["bucket-a"; "# a comment"; ""; "bucket-b"])).
Proof.
  apply (main_rows_returns bucket_a_client (fun _ => 1%nat) 5
           ["bucket-a"; "# a comment"; ""; "bucket-b"]).
  lia.
Defined.

(** The same file, the futures yielded in the order of the lines. *)
Lemma main_rows_in_order_witness :
  map (fun r => (original_domain r, Returned (result_of r)))
      [ {| original_domain := "bucket-a";
           result_of := bucket_outcome "s3://bucket-a" "bucket-a" true
                                       "Bucket accessible" |};
        {| original_domain := "bucket-b";
           result_of := bucket_outcome "s3://bucket-b" "bucket-b" false
                                       "Access denied to bucket" |} ]
  = map (fun e => (original e,
                   check_s3_url_access bucket_a_client (s3_url e)))
        (load_urls_from_file ["bucket-a"; "# a comment"; ""; "bucket-b"]).
Proof.
  apply (main_rows_in_order bucket_a_client 5
           ["bucket-a"; "# a comment"; ""; "bucket-b"]).
  reflexivity.
Defined.

Section Summary.

Lemma accessible_count_from :
  forall (results : list outcome) (n : Z),
    fold_left (fun count r => (count + (if accessible r then 1 else 0))%Z)
              results n
    = (n + Z.of_nat (List.length (filter accessible results)))%Z.
Proof.
  induction results as [| r results IH]; intros n; cbn [fold_left filter].
  - cbn. lia.
  - rewrite IH. destruct (accessible r); cbn [List.length]; lia.
Qed.

Lemma accessible_count_filter :
  forall results,
    accessible_count results
    = Z.of_nat (List.length (filter accessible results)).
Proof.
  intros. unfold accessible_count. now rewrite accessible_count_from.
Qed.

Lemma filter_length_perm :
  forall (A : Type) (p : A -> bool) (l l' : list A),
    Permutation l l' ->
    List.length (filter p l) = List.length (filter p l').
Proof.
  intros A p l l' H. induction H; cbn [filter].
  - reflexivity.
  - destruct (p x); cbn [List.length]; now rewrite IHPermutation.
  - destruct (p x), (p y); reflexivity.
  - congruence.
Qed.

Lemma filter_map_length :
  forall (A B : Type) (f : A -> B) (p : B -> bool) (l : list A),
    List.length (filter p (map f l))
    = List.length (filter (fun a => p (f a)) l).
Proof.
  induction l as [| a l IH]; [reflexivity |].
  cbn [map filter]. destruct (p (f a)); cbn [List.length]; now rewrite IH.
Qed.

(** X9.  The number of the summary line is the number of rows [main] lists
    as accessible afterwards, and lies between zero and the number of
    rows. *)
Theorem accessible_count_is_listed :
  forall rows : list report_row,
    accessible_count (map result_of rows)
    = Z.of_nat (List.length (accessible_results rows))
    /\ (0 <= accessible_count (map result_of rows)
        <= Z.of_nat (List.length rows))%Z.
Proof.
  intros rows.
  assert (H : accessible_count (map result_of rows)
              = Z.of_nat (List.length (accessible_results rows))).
  { rewrite accessible_count_filter. unfold accessible_results.
    now rewrite filter_map_length. }
  split; [exact H |]. rewrite H. unfold accessible_results.
  assert (Hle := filter_length_le (fun r => accessible (result_of r)) rows).
  lia.
Qed.

(** X10.  The number of accessible results of a batch does not depend on
    the order in which the tasks complete, nor on the number of workers. *)
Theorem accessible_count_any_order :
  forall c sched sched' workers workers' s3_urls results results',
    check_multiple_urls c sched s3_urls workers = Returned results ->
    check_multiple_urls c sched' s3_urls workers' = Returned results' ->
    accessible_count results = accessible_count results'.
Proof.
  intros c sched sched' workers workers' s3_urls results results' H H'.
  apply batch_perm in H as [H _]. apply batch_perm in H' as [H' _].
  assert (Hperm : Permutation (map Returned results) (map Returned results'))
    by (eapply perm_trans; [exact H | now apply Permutation_sym]).
  set (p := fun f : result outcome =>
              match f with Returned o => accessible o | Raised _ => false end).
  apply (filter_length_perm _ p) in Hperm.
  rewrite !filter_map_length in Hperm. cbn [p] in Hperm.
  rewrite !accessible_count_filter. f_equal. exact Hperm.
Qed.

End Summary.

(** The two orders of completion of the probes of two buckets. *)
Lemma accessible_count_any_order_witness :
  accessible_count
    [ bucket_outcome "s3://bucket-a" "bucket-a" true "Bucket accessible";
      bucket_outcome "s3://bucket-b" "bucket-b" false
                     "Access denied to bucket" ]
  = accessible_count
      [ bucket_outcome "s3://bucket-b" "bucket-b" false
                       "Access denied to bucket";
        bucket_outcome "s3://bucket-a" "bucket-a" true "Bucket accessible" ].
Proof.
  apply (accessible_count_any_order bucket_a_client
           (fun _ => 0%nat) (fun _ => 1%nat) 5 2
           [Some "s3://bucket-a"; Some "s3://bucket-b"]);
    reflexivity.
Defined.

(* ================================================================== *)
(** ** The loader *)

Section Loader.

Lemma load_lines_In :
  forall lines n e,
    In e (load_lines n lines) <->
    exists i line,
      nth_error lines i = Some line
      /\ truthy (strip line) = true
      /\ startswith "#" (strip line) = false
      /\ e = {| original := strip line;
                s3_url := convert_domain_to_s3_url (strip line);
                line_num := n + i |}.
Proof.
  induction lines as [| l lines IH]; intros n e.
  - split; [intros [] | intros [i [line [H _]]]; destruct i; discriminate].
  - cbn [load_lines].
    destruct (truthy (strip l) && negb (startswith "#" (strip l))) eqn:Hk.
    + apply andb_true_iff in Hk as [Ht Hc]. apply negb_true_iff in Hc.
      split.
      * intros [<- | Hin].
        -- exists 0%nat, l. rewrite Nat.add_0_r. now repeat split.
        -- apply IH in Hin as [i [line [Hn [H1 [H2 ->]]]]].
           exists (S i), line. repeat split; try assumption.
           now rewrite Nat.add_succ_r.
      * intros [i [line [Hn [H1 [H2 ->]]]]]. destruct i as [| i].
        -- injection Hn as ->. left. now rewrite Nat.add_0_r.
        -- right. apply IH. exists i, line. repeat split; try assumption.
           now rewrite Nat.add_succ_r.
    + split.
      * intros Hin. apply IH in Hin as [i [line [Hn [H1 [H2 ->]]]]].
        exists (S i), line. repeat split; try assumption.
        now rewrite Nat.add_succ_r.
      * intros [i [line [Hn [H1 [H2 ->]]]]]. destruct i as [| i].
        -- injection Hn as ->. rewrite H1, H2 in Hk. discriminate.
        -- apply IH. exists i, line. repeat split; try assumption.
           now rewrite Nat.add_succ_r.
Qed.

(** X11.  The entries of [load_urls_from_file] are exactly the lines of
    the file that, once stripped, are neither empty nor comments: an entry
    holds the stripped line, its conversion, and the number of the line
    counted from 1. *)
Theorem load_urls_from_file_entries :
  forall lines e,
    In e (load_urls_from_file lines) <->
    exists i line,
      nth_error lines i = Some line
      /\ truthy (strip line) = true
      /\ startswith "#" (strip line) = false
      /\ e = {| original := strip line;
                s3_url := convert_domain_to_s3_url (strip line);
                line_num := S i |}.
Proof.
  intros lines e. unfold load_urls_from_file. apply load_lines_In.
Qed.

Lemma load_lines_sorted :
  forall lines n,
    Forall (fun e => n <= line_num e)%nat (load_lines n lines)
    /\ StronglySorted (fun a b => line_num a < line_num b)%nat
                      (load_lines n lines).
Proof.
  induction lines as [| l lines IH]; intros n.
  - split; constructor.
  - destruct (IH (S n)) as [Hge Hsorted]. cbn [load_lines].
    assert (Hge' : Forall (fun e => n <= line_num e)%nat
                          (load_lines (S n) lines)).
    { eapply Forall_impl; [| exact Hge]. cbn. intros; lia. }
    destruct (truthy (strip l) && negb (startswith "#" (strip l))).
    + split.
      * constructor; [cbn; lia | exact Hge'].
      * constructor; [exact Hsorted |].
        eapply Forall_impl; [| exact Hge]. cbn. intros; lia.
    + split; assumption.
Qed.

(** X12.  The entries of [load_urls_from_file] come in the order of the
    file: their line numbers increase strictly and start at 1 or above, so
    that no line gives two entries. *)
Theorem load_urls_from_file_sorted :
  forall lines,
    StronglySorted (fun a b => line_num a < line_num b)%nat
                   (load_urls_from_file lines)
    /\ Forall (fun e => 1 <= line_num e <= List.length lines)%nat
              (load_urls_from_file lines).
Proof.
  intros lines. split; [apply load_lines_sorted |].
  apply Forall_forall. intros e He.
  apply load_lines_In in He as [i [line [Hn [_ [_ ->]]]]]. cbn.
  assert (i < List.length lines)%nat
    by (apply nth_error_Some; congruence).
  lia.
Qed.

End Loader.

(** The originals are the kept lines, stripped, in the order of the file. *)
Lemma load_lines_originals :
  forall lines n,
    map original (load_lines n lines)
    = filter (fun s => truthy s && negb (startswith "#" s))
             (map strip lines).
Proof.
  induction lines as [| l lines IH]; intros n; [reflexivity |].
  cbn [load_lines map filter].
  destruct (truthy (strip l) && negb (startswith "#" (strip l)));
    cbn [map original]; now rewrite IH.
Qed.

(** X13.  The originals of the entries are the stripped lines of the file
    without the empty ones and the comments, in the order of the file;
    there are no more entries than lines. *)
Theorem load_urls_from_file_originals :
  forall lines,
    map original (load_urls_from_file lines)
    = filter (fun s => truthy s && negb (startswith "#" s))
             (map strip lines)
    /\ (List.length (load_urls_from_file lines) <= List.length lines)%nat.
Proof.
  intros lines. unfold load_urls_from_file.
  assert (H := load_lines_originals lines 1). split; [exact H |].
  apply (f_equal (@List.length _)) in H. rewrite length_map in H.
  rewrite H. etransitivity; [apply filter_length_le |].
  now rewrite length_map.
Qed.

(* ================================================================== *)
(** ** More on the normalizer *)

Section WhiteSpace.

Lemma lstrip_app_space :
  forall w s, all_space w = true -> lstrip (w ++ s) = lstrip s.
Proof.
  induction w as [| a w IH]; intros s H; [reflexivity |].
  cbn [all_space] in H. apply andb_true_iff in H as [Ha Hw].
  cbn [append lstrip]. rewrite Ha. now apply IH.
Qed.

Lemma rstrip_all_space : forall w, all_space w = true -> rstrip w = "".
Proof.
  induction w as [| a w IH]; intros H; [reflexivity |].
  cbn [all_space] in H. apply andb_true_iff in H as [Ha Hw].
  cbn [rstrip]. now rewrite (IH Hw), Ha.
Qed.

Lemma rstrip_app_space :
  forall s w, all_space w = true -> rstrip (s ++ w) = rstrip s.
Proof.
  induction s as [| a s IH]; intros w H.
  - now apply rstrip_all_space.
  - cbn [append rstrip]. now rewrite (IH w H).
Qed.

Lemma strip_app_space :
  forall s w, all_space w = true -> strip (s ++ w) = strip s.
Proof.
  unfold strip. induction s as [| a s IH]; intros w H.
  - cbn [append]. now rewrite (lstrip_all_space w H).
  - cbn [append lstrip]. destruct (isspace a); [now apply IH |].
    now apply (rstrip_app_space (String a s)).
Qed.

Lemma rstrip_head :
  forall a s, isspace a = false -> exists t, rstrip (String a s) = String a t.
Proof.
  intros a s Ha. cbn [rstrip]. rewrite Ha.
  destruct (rstrip s); eexists; reflexivity.
Qed.

Lemma lstrip_head :
  forall s, lstrip s = "" \/ exists a t, lstrip s = String a t
                                         /\ isspace a = false.
Proof.
  induction s as [| a s IH]; [now left |].
  cbn [lstrip]. destruct (isspace a) eqn:Ha; [exact IH |].
  right. now exists a, s.
Qed.

Lemma rstrip_idempotent : forall s, rstrip (rstrip s) = rstrip s.
Proof.
  induction s as [| a s IH]; [reflexivity |].
  cbn [rstrip]. destruct (rstrip s) as [| b r] eqn:Hr.
  - destruct (isspace a) eqn:Ha; [reflexivity |].
    cbn [rstrip]. now rewrite Ha.
  - change (rstrip (String a (String b r)))
      with (match rstrip (String b r) with
            | "" => if isspace a then "" else String a ""
            | String c r' => String a (String c r')
            end).
    now rewrite IH.
Qed.

Lemma strip_idempotent : forall s, strip (strip s) = strip s.
Proof.
  intros s. unfold strip.
  destruct (lstrip_head s) as [-> | [a [t [-> Ha]]]]; [reflexivity |].
  destruct (rstrip_head a t Ha) as [t' Ht]. rewrite Ht.
  cbn [lstrip]. rewrite Ha, <- Ht. apply rstrip_idempotent.
Qed.

(** X14.  White space around the input does not change what the
    normalizer returns; in particular converting a stripped line, as the
    loader does, is converting the line. *)
Theorem convert_ignores_white_space :
  forall w w' raw,
    all_space w = true -> all_space w' = true ->
    convert_domain_to_s3_url (w ++ raw ++ w') = convert_domain_to_s3_url raw
    /\ convert_domain_to_s3_url (strip raw) = convert_domain_to_s3_url raw.
Proof.
  intros w w' raw Hw Hw'. unfold convert_domain_to_s3_url. cbv zeta.
  rewrite strip_idempotent.
  assert (H : strip (w ++ raw ++ w') = strip raw).
  { rewrite <- append_assoc', (strip_app_space _ w' Hw').
    unfold strip. now rewrite (lstrip_app_space w raw Hw). }
  rewrite H. split; reflexivity.
Qed.

End WhiteSpace.

(** A line with a tab before and a line feed after. *)
Lemma convert_ignores_white_space_witness :
  convert_domain_to_s3_url
    (String (ascii_of_nat 9) "" ++ "my-bucket/file.pdf"
     ++ String (ascii_of_nat 10) "")
  = convert_domain_to_s3_url "my-bucket/file.pdf"
  /\ convert_domain_to_s3_url (strip "my-bucket/file.pdf")
     = convert_domain_to_s3_url "my-bucket/file.pdf".
Proof.
  apply (convert_ignores_white_space (String (ascii_of_nat 9) "")
           (String (ascii_of_nat 10) "") "my-bucket/file.pdf");
    reflexivity.
Defined.

Section Protocol.

Lemma rstrip_app_no_space :
  forall p s, no_space p = true -> rstrip (p ++ s) = p ++ rstrip s.
Proof.
  induction p as [| a p IH]; intros s H; [reflexivity |].
  cbn [no_space] in H. apply andb_true_iff in H as [Ha Hp].
  apply negb_true_iff in Ha.
  cbn [append rstrip]. rewrite (IH s Hp).
  destruct (p ++ rstrip s) eqn:E; [now rewrite Ha | reflexivity].
Qed.

Lemma rstrip_prefix : forall s, exists w, s = rstrip s ++ w.
Proof.
  induction s as [| a s [w IH]]; [now exists "" |].
  cbn [rstrip]. destruct (rstrip s) as [| b r] eqn:Hr.
  - destruct (isspace a).
    + now exists (String a s).
    + exists w. cbn [append] in *. now rewrite <- IH.
  - exists w. cbn [append] in *. now rewrite <- IH.
Qed.

Lemma startswith_rstrip_inv :
  forall p s, startswith p (rstrip s) = true -> startswith p s = true.
Proof.
  intros p s H. destruct (rstrip_prefix s) as [w Hw]. rewrite Hw.
  now apply startswith_app_l.
Qed.

Lemma strip_protocol_rstrip :
  forall d,
    startswith "https://" d = false ->
    startswith "http://" d = false ->
    strip_protocol (rstrip d) = rstrip d.
Proof.
  intros d H1 H2. unfold strip_protocol.
  destruct (startswith "https://" (rstrip d)) eqn:E1.
  { apply startswith_rstrip_inv in E1. congruence. }
  destruct (startswith "http://" (rstrip d)) eqn:E2.
  { apply startswith_rstrip_inv in E2. congruence. }
  reflexivity.
Qed.

(** X15.  A leading [https://] or [http://] does not change what the
    normalizer returns, for an input without white space at its start that
    does not itself begin with one of the two. *)
Theorem convert_ignores_protocol :
  forall d,
    lstrip d = d ->
    startswith "https://" d = false ->
    startswith "http://" d = false ->
    convert_domain_to_s3_url ("https://" ++ d) = convert_domain_to_s3_url d
    /\ convert_domain_to_s3_url ("http://" ++ d) = convert_domain_to_s3_url d.
Proof.
  intros d Hl H1 H2.
  assert (Hd : stripped d = rstrip d).
  { unfold stripped, strip. rewrite Hl. now apply strip_protocol_rstrip. }
  assert (Hs : stripped ("https://" ++ d) = rstrip d).
  { unfold stripped, strip.
    change (lstrip ("https://" ++ d)) with ("https://" ++ d).
    rewrite (rstrip_app_no_space "https://" d eq_refl).
    unfold strip_protocol. rewrite (startswith_app "https://"). reflexivity. }
  assert (Hp : stripped ("http://" ++ d) = rstrip d).
  { unfold stripped, strip.
    change (lstrip ("http://" ++ d)) with ("http://" ++ d).
    rewrite (rstrip_app_no_space "http://" d eq_refl).
    unfold strip_protocol.
    replace (startswith "https://" ("http://" ++ rstrip d)) with false
      by (cbn [append]; now rewrite !startswith_cons).
    rewrite (startswith_app "http://"). reflexivity. }
  unfold convert_domain_to_s3_url. cbv zeta.
  fold (stripped d) (stripped ("https://" ++ d)) (stripped ("http://" ++ d)).
  rewrite Hd, Hs, Hp. split; reflexivity.
Qed.

End Protocol.

(** The virtual-hosted URL of a file, with and without its protocol. *)
Lemma convert_ignores_protocol_witness :
  convert_domain_to_s3_url ("https://" ++ "bucket.s3-us-east-1.amazonaws.com/file.pdf")
  = convert_domain_to_s3_url "bucket.s3-us-east-1.amazonaws.com/file.pdf"
  /\ convert_domain_to_s3_url ("http://" ++ "bucket.s3-us-east-1.amazonaws.com/file.pdf")
     = convert_domain_to_s3_url "bucket.s3-us-east-1.amazonaws.com/file.pdf".
Proof.
  apply (convert_ignores_protocol "bucket.s3-us-east-1.amazonaws.com/file.pdf");
    reflexivity.
Defined.

Section NoUrl.

Lemma split_go_not_nil :
  forall sep s m k cur, split_go sep m k cur s <> [].
Proof.
  induction s as [| c s IH]; intros m k cur; cbn [split_go]; [discriminate |].
  destruct k; [| apply IH].
  destruct m; [apply IH |].
  destruct (startswith sep (String c s)); [discriminate | apply IH].
Qed.

Lemma path_style_none_inv :
  forall d, path_style d = None -> contains "/" d = false.
Proof.
  intros d H. destruct (contains "/" d) eqn:Hs; [| reflexivity].
  destruct (contains_slash_cut d Hs) as [a [r [Hd Ha]]].
  unfold path_style, split_max in H. rewrite Hd in H.
  rewrite (split_go_slash_cut a 1 "" r Ha) in H.
  destruct (split_go "/" 1 0 "" r) as [| x l] eqn:E.
  - now apply split_go_not_nil in E.
  - discriminate.
Qed.

(** X16.  The normalizer returns no URL exactly when the stripped input
    misses the virtual-hosted markers [".s3."] and [".s3-"], begins with
    ["s3."] or ["s3-"] or contains ["s3.amazonaws.com"], and holds no
    ["/"]: a path-style host without a bucket after it. *)
Theorem convert_none_iff :
  forall raw,
    convert_domain_to_s3_url raw = None <->
    contains ".s3." (stripped raw) || contains ".s3-" (stripped raw) = false
    /\ startswith "s3." (stripped raw) || startswith "s3-" (stripped raw)
       || contains "s3.amazonaws.com" (stripped raw) = true
    /\ contains "/" (stripped raw) = false.
Proof.
  intros raw. unfold convert_domain_to_s3_url. cbv zeta.
  fold (stripped raw). generalize (stripped raw) as d. intros d.
  destruct (contains ".s3." d || contains ".s3-" d).
  { split; [discriminate | now intros [H _]]. }
  destruct (startswith "s3." d || startswith "s3-" d).
  { cbn [orb]. split.
    - intros H. now apply path_style_none_inv in H.
    - intros [_ [_ H]]. now apply path_style_no_slash. }
  cbn [orb]. destruct (contains "s3.amazonaws.com" d).
  { split.
    - intros H. now apply path_style_none_inv in H.
    - intros [_ [_ H]]. now apply path_style_no_slash. }
  destruct (startswith "s3://" d).
  { split; [discriminate | now intros [_ [H _]]]. }
  destruct (contains "/" d);
    (split; [discriminate | now intros [_ [H _]]]).
Qed.

End NoUrl.

Section ParseFormat.

Lemma parse_s3_url_of :
  forall b p,
    contains "/" b = false ->
    parse_s3_url (Some (s3_url_of b p)) = Returned (b, p).
Proof.
  intros b p Hb. unfold s3_url_of. destruct p as [| a p]; cbn [truthy].
  - unfold parse_s3_url. rewrite (startswith_app "s3://"). cbn [negb].
    change (drop 5 ("s3://" ++ b)) with b.
    now rewrite (split_max_none "/" 1 b Hb).
  - now apply parse_s3_url_canonical.
Qed.

(** X17.  Reading back a URL the normalizer formats gives the bucket and
    the path it was formatted from, when the bucket holds no ["/"]. *)
Theorem parse_formatted_url :
  forall b p,
    contains "/" b = false ->
    parse_s3_url (Some (s3_url_of b p)) = Returned (b, p).
Proof.
  exact parse_s3_url_of.
Qed.

(** X18.  What [parse_s3_url] returns determines the URL up to a closing
    ["/"]: the URL starts with ["s3://"], the bucket holds no ["/"], and
    the URL is ["s3://"], the bucket, ["/"] and the key, or, with an empty
    key, ["s3://"] and the bucket alone. *)
Theorem parse_s3_url_inverse :
  forall u b k,
    parse_s3_url (Some u) = Returned (b, k) ->
    startswith "s3://" u = true
    /\ contains "/" b = false
    /\ (u = "s3://" ++ b ++ "/" ++ k \/ (k = "" /\ u = "s3://" ++ b)).
Proof.
  intros u b k H. unfold parse_s3_url in H.
  destruct (startswith "s3://" u) eqn:Hs; cbn [negb] in H; [| discriminate].
  split; [reflexivity |].
  rewrite (startswith_drop _ _ Hs). cbn [String.length].
  change (drop 5 ("s3://" ++ drop 5 u)) with (drop 5 u).
  revert H. generalize (drop 5 u) as path. intros path H.
  destruct (contains "/" path) eqn:Hp.
  - destruct (contains_slash_cut path Hp) as [a [r [-> Ha]]].
    unfold split_max in H.
    rewrite (split_go_slash_cut a 0 "" r Ha), split_go_zero in H.
    injection H as <- <-. split; [exact Ha |]. now left.
  - rewrite (split_max_none "/" 1 path Hp) in H.
    injection H as <- <-. split; [exact Hp |]. now right.
Qed.

End ParseFormat.

(** The URL of a file in a bucket. *)
Lemma parse_formatted_url_witness :
  parse_s3_url (Some (s3_url_of "my-bucket" "path/file.txt"))
  = Returned ("my-bucket", "path/file.txt").
Proof.
  apply (parse_formatted_url "my-bucket" "path/file.txt"). reflexivity.
Defined.

(** The same URL, read. *)
Lemma parse_s3_url_inverse_witness :
  startswith "s3://" "s3://my-bucket/path/file.txt" = true
  /\ contains "/" "my-bucket" = false
  /\ ("s3://my-bucket/path/file.txt"
      = "s3://" ++ "my-bucket" ++ "/" ++ "path/file.txt"
      \/ ("path/file.txt" = ""
          /\ "s3://my-bucket/path/file.txt" = "s3://" ++ "my-bucket")).
Proof.
  apply (parse_s3_url_inverse "s3://my-bucket/path/file.txt" "my-bucket"
                              "path/file.txt").
  reflexivity.
Defined.

Section PatternLaws.

Lemma contains_app_l :
  forall n s r, contains n s = true -> contains n (s ++ r) = true.
Proof.
  induction s as [| c s IH]; intros r H.
  - cbn [contains] in H. rewrite orb_false_r in H.
    apply contains_startswith. now apply (startswith_app_l n "" r).
  - rewrite contains_cons in H.
    change (String c s ++ r) with (String c (s ++ r)). rewrite contains_cons.
    apply orb_true_iff in H as [H | H].
    + apply (startswith_app_l n _ r) in H. cbn [append] in H.
      rewrite H. reflexivity.
    + rewrite (IH r H). apply orb_true_r.
Qed.

Lemma contains_slash_app :
  forall s t,
    contains "/" s = false -> contains "/" t = false ->
    contains "/" (s ++ t) = false.
Proof.
  induction s as [| c s IH]; intros t Hs Ht; [exact Ht |].
  apply contains_false_cons in Hs as [Hc Hs].
  cbn [append]. rewrite contains_cons, (IH t Hs Ht), orb_false_r.
  rewrite startswith_cons, startswith_empty in *. exact Hc.
Qed.

(** The first piece of a split on [".s3."] or [".s3-"], when the marker
    comes after a string that holds no [".s3"]. *)
Lemma split_go_marker_hd :
  forall x b r m cur,
    contains ".s3" b = false ->
    hd "" (split_go (".s3" ++ String x "") (S m) 0 cur
                    (b ++ (".s3" ++ String x "") ++ r))
    = cur ++ b.
Proof.
  intros x. induction b as [| c b IH]; intros r m cur Hb.
  - cbn [append split_go]. rewrite !startswith_cons, !Ascii.eqb_refl.
    rewrite startswith_empty. cbn [andb hd]. now rewrite append_empty_r.
  - apply contains_false_cons in Hb as [Hc Hb].
    cbn [append split_go].
    replace (startswith (String "." (String "s" (String "3" (String x ""))))
               (String c (b ++ String "." (String "s" (String "3"
                                                         (String x r))))))
      with false.
    + specialize (IH r m (cur ++ String c "") Hb). cbn [append] in IH.
      rewrite IH. now rewrite append_assoc'.
    + symmetry. rewrite startswith_cons.
      destruct (Ascii.eqb "." c) eqn:E0; [| reflexivity]. cbn [andb].
      destruct b as [| c1 b]; cbn [append]; rewrite startswith_cons;
        [reflexivity |].
      destruct (Ascii.eqb "s" c1) eqn:E1; [| reflexivity]. cbn [andb].
      destruct b as [| c2 b]; cbn [append]; rewrite startswith_cons;
        [reflexivity |].
      destruct (Ascii.eqb "3" c2) eqn:E2; [| reflexivity]. exfalso.
      rewrite !startswith_cons, E0, E1, E2, startswith_empty in Hc.
      discriminate.
Qed.

Lemma split_marker_hd :
  forall x b r,
    contains ".s3" b = false ->
    hd "" (split (".s3" ++ String x "") (b ++ (".s3" ++ String x "") ++ r))
    = b.
Proof.
  intros x b r Hb. unfold split, split_max.
  destruct (String.length (b ++ (".s3" ++ String x "") ++ r)) as [| n] eqn:E.
  - destruct b; discriminate.
  - now rewrite split_go_marker_hd.
Qed.

Lemma virtual_hosted_normalize :
  forall marker b region k,
    let d := b ++ marker ++ region ++ "/" ++ k in
    stripped d = d ->
    contains "/" b = false ->
    contains "/" region = false ->
    contains "/" marker = false ->
    hd "" (split marker (b ++ marker ++ region)) = b ->
    (marker = ".s3."
     \/ (marker = ".s3-" /\ contains ".s3." (b ++ marker ++ region) = false)) ->
    normalize d = Returned (b, k).
Proof.
  intros marker b region k d Hd Hb Hregion Hmarker Hbucket Hcase.
  set (host := b ++ marker ++ region) in *.
  assert (Hdh : d = host ++ String "/" k).
  { unfold d, host. now rewrite !append_assoc'. }
  assert (Hhost : contains "/" host = false).
  { unfold host. apply contains_slash_app; [exact Hb |].
    now apply contains_slash_app. }
  assert (Hin : contains marker host = true).
  { unfold host. apply contains_app_r, contains_startswith, startswith_app. }
  unfold normalize, convert_domain_to_s3_url. cbv zeta.
  fold (stripped d). rewrite Hd.
  assert (Hvirtual : contains ".s3." d || contains ".s3-" d = true).
  { rewrite Hdh.
    destruct Hcase as [E | [E _]]; rewrite E in Hin;
      rewrite (contains_app_l _ host _ Hin); [reflexivity | apply orb_true_r]. }
  rewrite Hvirtual.
  assert (Hsplit : split_max "/" 1 d = [host; k]).
  { unfold split_max. rewrite Hdh, (split_go_slash_cut host 0 "" k Hhost).
    now rewrite split_go_zero. }
  rewrite Hsplit. cbn [hd List.length Nat.ltb Nat.leb nth].
  destruct Hcase as [E | [E Hno]].
  - rewrite E in Hin, Hbucket. rewrite Hin, Hbucket.
    now apply parse_s3_url_of.
  - rewrite E in Hin, Hbucket. rewrite Hno, Hin, Hbucket.
    now apply parse_s3_url_of.
Qed.

Lemma virtual_hosted_normalize_host :
  forall marker b region,
    let d := b ++ marker ++ region in
    stripped d = d ->
    contains "/" b = false ->
    contains "/" region = false ->
    contains "/" marker = false ->
    hd "" (split marker d) = b ->
    (marker = ".s3."
     \/ (marker = ".s3-" /\ contains ".s3." d = false)) ->
    normalize d = Returned (b, "").
Proof.
  intros marker b region d Hd Hb Hregion Hmarker Hbucket Hcase.
  assert (Hhost : contains "/" d = false).
  { unfold d. apply contains_slash_app; [exact Hb |].
    now apply contains_slash_app. }
  assert (Hin : contains marker d = true).
  { unfold d. apply contains_app_r, contains_startswith, startswith_app. }
  unfold normalize, convert_domain_to_s3_url. cbv zeta.
  fold (stripped d). rewrite Hd.
  assert (Hvirtual : contains ".s3." d || contains ".s3-" d = true).
  { destruct Hcase as [E | [E _]]; rewrite E in Hin; rewrite Hin;
      [reflexivity | apply orb_true_r]. }
  rewrite Hvirtual, (split_max_none "/" 1 d Hhost).
  cbn [hd List.length Nat.ltb Nat.leb nth].
  destruct Hcase as [E | [E Hno]].
  - rewrite E in Hin, Hbucket. rewrite Hin, Hbucket.
    now apply parse_s3_url_of.
  - rewrite E in Hin, Hbucket. rewrite Hno, Hin, Hbucket.
    now apply parse_s3_url_of.
Qed.

(** X19.  A virtual-hosted address, a bucket followed by [".s3."] and the
    rest of the host, is normalized to that bucket: with the key that
    follows the host after a ["/"], or with an empty key when the host
    stands alone.  Nothing of the address is left to strip, neither the
    bucket nor the rest of the host holds a ["/"], and the bucket holds no
    [".s3"]. *)
Theorem virtual_hosted_dot :
  forall b region,
    contains "/" b = false ->
    contains "/" region = false ->
    contains ".s3" b = false ->
    (forall k,
        let d := b ++ ".s3." ++ region ++ "/" ++ k in
        stripped d = d -> normalize d = Returned (b, k))
    /\ (let d := b ++ ".s3." ++ region in
        stripped d = d -> normalize d = Returned (b, "")).
Proof.
  intros b region Hb Hregion Hmark.
  assert (Hhd := split_marker_hd "." b region Hmark).
  split.
  - intros k d Hd.
    apply (virtual_hosted_normalize ".s3." b region k);
      try assumption; [reflexivity | now left].
  - intros d Hd.
    apply (virtual_hosted_normalize_host ".s3." b region);
      try assumption; [reflexivity | now left].
Qed.

(** X20.  The same with the marker [".s3-"], when the host holds no
    [".s3."]: the bucket is what comes before [".s3-"]. *)
Theorem virtual_hosted_dash :
  forall b region,
    contains "/" b = false ->
    contains "/" region = false ->
    contains ".s3" b = false ->
    contains ".s3." (b ++ ".s3-" ++ region) = false ->
    (forall k,
        let d := b ++ ".s3-" ++ region ++ "/" ++ k in
        stripped d = d -> normalize d = Returned (b, k))
    /\ (let d := b ++ ".s3-" ++ region in
        stripped d = d -> normalize d = Returned (b, "")).
Proof.
  intros b region Hb Hregion Hmark Hdot.
  assert (Hhd := split_marker_hd "-" b region Hmark).
  split.
  - intros k d Hd.
    apply (virtual_hosted_normalize ".s3-" b region k);
      try assumption; [reflexivity | now right].
  - intros d Hd.
    apply (virtual_hosted_normalize_host ".s3-" b region);
      try assumption; [reflexivity | now right].
Qed.

End PatternLaws.

(** A bucket in a region, with a file and alone. *)
Lemma virtual_hosted_dot_witness :
  normalize ("my.bucket" ++ ".s3." ++ "eu-west-1.amazonaws.com" ++ "/"
             ++ "a/b.txt")
  = Returned ("my.bucket", "a/b.txt")
  /\ normalize ("my.bucket" ++ ".s3." ++ "eu-west-1.amazonaws.com")
     = Returned ("my.bucket", "").
Proof.
  destruct (virtual_hosted_dot "my.bucket" "eu-west-1.amazonaws.com"
              eq_refl eq_refl eq_refl) as [H1 H2].
  split; [apply (H1 "a/b.txt") | apply H2]; reflexivity.
Defined.

(** The older form of the host. *)
Lemma virtual_hosted_dash_witness :
  normalize ("bucket" ++ ".s3-" ++ "us-east-1.amazonaws.com" ++ "/"
             ++ "file.pdf")
  = Returned ("bucket", "file.pdf")
  /\ normalize ("bucket" ++ ".s3-" ++ "us-east-1.amazonaws.com")
     = Returned ("bucket", "").
Proof.
  destruct (virtual_hosted_dash "bucket" "us-east-1.amazonaws.com"
              eq_refl eq_refl eq_refl eq_refl) as [H1 H2].
  split; [apply (H1 "file.pdf") | apply H2]; reflexivity.
Defined.

Section PathStyleLaw.

Lemma convert_path_style :
  forall host rest,
    let d := host ++ rest in
    startswith "s3." host = true \/ startswith "s3-" host = true
    \/ contains "s3.amazonaws.com" host = true ->
    stripped d = d ->
    contains ".s3." d = false ->
    contains ".s3-" d = false ->
    convert_domain_to_s3_url d = path_style d.
Proof.
  intros host rest d Hpat Hd Hdot Hdash.
  unfold convert_domain_to_s3_url. cbv zeta. fold (stripped d).
  rewrite Hd, Hdot, Hdash. cbn [orb].
  destruct (startswith "s3." d || startswith "s3-" d) eqn:Hhost;
    [reflexivity |].
  apply orb_false_iff in Hhost as [H1 H2].
  destruct Hpat as [H | [H | H]].
  - apply (startswith_app_l _ _ rest) in H. fold d in H. congruence.
  - apply (startswith_app_l _ _ rest) in H. fold d in H. congruence.
  - apply (contains_app_l _ _ rest) in H. fold d in H. now rewrite H.
Qed.

(** X21.  A path-style address, a host that begins with ["s3."] or ["s3-"]
    or contains ["s3.amazonaws.com"], then ["/"] and a bucket, is
    normalized to that bucket: with the key that follows the bucket after
    a ["/"], or with an empty key when nothing follows.  Nothing of the
    address is left to strip, it holds neither [".s3."] nor [".s3-"], and
    neither the host nor the bucket holds a ["/"]. *)
Theorem path_style_law :
  forall host b,
    startswith "s3." host = true \/ startswith "s3-" host = true
    \/ contains "s3.amazonaws.com" host = true ->
    contains "/" host = false ->
    contains "/" b = false ->
    (forall k,
        let d := host ++ "/" ++ b ++ "/" ++ k in
        stripped d = d ->
        contains ".s3." d = false -> contains ".s3-" d = false ->
        normalize d = Returned (b, k))
    /\ (let d := host ++ "/" ++ b in
        stripped d = d ->
        contains ".s3." d = false -> contains ".s3-" d = false ->
        normalize d = Returned (b, "")).
Proof.
  intros host b Hpat Hhost Hb. split.
  - intros k d Hd Hdot Hdash. unfold normalize.
    assert (Hc : convert_domain_to_s3_url d = path_style d)
      by exact (convert_path_style host ("/" ++ b ++ "/" ++ k)
                                   Hpat Hd Hdot Hdash).
    rewrite Hc.
    unfold path_style, split_max, d.
    change (host ++ "/" ++ b ++ "/" ++ k)
      with (host ++ String "/" (b ++ String "/" k)).
    rewrite (split_go_slash_cut host 1 "" _ Hhost).
    rewrite (split_go_slash_cut b 0 "" k Hb), split_go_zero.
    cbn [List.length Nat.leb Nat.ltb nth append].
    now apply parse_s3_url_of.
  - intros d Hd Hdot Hdash. unfold normalize.
    assert (Hc : convert_domain_to_s3_url d = path_style d)
      by exact (convert_path_style host ("/" ++ b) Hpat Hd Hdot Hdash).
    rewrite Hc.
    unfold path_style, split_max, d.
    change (host ++ "/" ++ b) with (host ++ String "/" b).
    rewrite (split_go_slash_cut host 1 "" _ Hhost).
    rewrite (split_go_none "/" b 1 "" Hb).
    cbn [List.length Nat.leb Nat.ltb nth append].
    now apply parse_s3_url_of.
Qed.

(** X22.  An input that matches none of the host patterns and is not an
    [s3://] URL is read as a bucket name: up to the first ["/"] the
    bucket, after it the key, and with no ["/"] at all the bucket with an
    empty key. *)
Theorem bare_bucket_law :
  forall b,
    contains "/" b = false ->
    (forall k,
        let d := b ++ "/" ++ k in
        stripped d = d -> no_pattern d = true ->
        normalize d = Returned (b, k))
    /\ (stripped b = b -> no_pattern b = true ->
        normalize b = Returned (b, "")).
Proof.
  intros b Hb.
  assert (Hbare : forall d, stripped d = d -> no_pattern d = true ->
            convert_domain_to_s3_url d
            = if contains "/" d
              then Some ("s3://" ++ hd "" (split_max "/" 1 d) ++ "/"
                         ++ nth 1 (split_max "/" 1 d) "")
              else Some ("s3://" ++ d)).
  { intros d Hd Hno. unfold no_pattern in Hno.
    apply andb_true_iff in Hno as [Hno H4].
    apply andb_true_iff in Hno as [Hno H3].
    apply andb_true_iff in Hno as [H1 H2].
    apply negb_true_iff in H1, H2, H3, H4.
    unfold convert_domain_to_s3_url. cbv zeta. fold (stripped d).
    now rewrite Hd, H1, H2, H3, H4. }
  split.
  - intros k d Hd Hno. unfold normalize. rewrite (Hbare d Hd Hno).
    assert (Hin : contains "/" d = true).
    { unfold d. apply contains_app_r, contains_startswith.
      exact (startswith_app "/" k). }
    rewrite Hin. unfold split_max, d.
    change (b ++ "/" ++ k) with (b ++ String "/" k).
    rewrite (split_go_slash_cut b 0 "" k Hb), split_go_zero.
    cbn [hd nth append]. now apply parse_s3_url_canonical.
  - intros Hd Hno. unfold normalize. rewrite (Hbare b Hd Hno), Hb.
    apply (parse_s3_url_of b "" Hb).
Qed.

End PathStyleLaw.

(** The global endpoint, with a file in a bucket and with a bucket alone. *)
Lemma path_style_law_witness :
  normalize ("s3.amazonaws.com" ++ "/" ++ "my-bucket" ++ "/" ++ "a/file.pdf")
  = Returned ("my-bucket", "a/file.pdf")
  /\ normalize ("s3.amazonaws.com" ++ "/" ++ "my-bucket")
     = Returned ("my-bucket", "").
Proof.
  destruct (path_style_law "s3.amazonaws.com" "my-bucket"
              (or_introl eq_refl) eq_refl eq_refl) as [H1 H2].
  split; [apply (H1 "a/file.pdf") | apply H2]; reflexivity.
Defined.

(** A bucket name, with a key and alone. *)
Lemma bare_bucket_law_witness :
  normalize ("just-a-bucket-name" ++ "/" ++ "dir/file.txt")
  = Returned ("just-a-bucket-name", "dir/file.txt")
  /\ normalize "just-a-bucket-name" = Returned ("just-a-bucket-name", "").
Proof.
  destruct (bare_bucket_law "just-a-bucket-name" eq_refl) as [H1 H2].
  split; [apply (H1 "dir/file.txt") | apply H2]; reflexivity.
Defined.

Section AnyOrder.

Context {A : Type}.

Lemma pick_next :
  forall (x d : A) (p l : list A),
    Permutation (x :: p) l ->
    exists i,
      (i < List.length l)%nat /\ nth i l d = x
      /\ Permutation p (remove_nth i l).
Proof.
  intros x d p l H.
  assert (Hin : In x l)
    by (eapply Permutation_in; [exact H | now left]).
  destruct (In_nth l x d Hin) as [i [Hi Hx]].
  exists i. repeat split; try assumption.
  apply (Permutation_cons_inv (a := x)).
  eapply perm_trans; [exact H |]. apply Permutation_sym.
  rewrite <- Hx at 1. now apply remove_nth_perm.
Qed.

Lemma as_completed_go_follows :
  forall (p l : list A),
    Permutation p l ->
    exists picks : list nat,
      forall sched k,
        (forall j, (j < List.length picks)%nat ->
                   sched (k + j)%nat = nth j picks 0%nat) ->
        as_completed_go (List.length l) k sched l = p.
Proof.
  induction p as [| x p IH]; intros l H.
  - apply Permutation_nil in H. subst l. exists []. reflexivity.
  - destruct l as [| y l'].
    { apply Permutation_sym, Permutation_nil in H. discriminate. }
    destruct (pick_next x y p (y :: l') H) as [i [Hi [Hx Hp]]].
    destruct (IH _ Hp) as [picks Hpicks].
    exists (i :: picks). intros sched k Hsched.
    assert (Hlen : List.length (remove_nth i (y :: l')) = List.length l').
    { apply Permutation_length in Hp, H. cbn [List.length] in H. lia. }
    assert (Hk : sched k = i).
    { specialize (Hsched 0%nat). rewrite Nat.add_0_r in Hsched.
      apply Hsched. cbn. lia. }
    change (List.length (y :: l')) with (S (List.length l')) at 1.
    cbn [as_completed_go].
    rewrite Hk, (Nat.mod_small i _ Hi), Hx. f_equal.
    rewrite <- Hlen. apply Hpicks. intros j Hj.
    specialize (Hsched (S j)). rewrite Nat.add_succ_r in Hsched.
    apply Hsched. cbn. lia.
Qed.

(** Every order of the futures is the order of completion under some
    scheduler. *)
Lemma as_completed_any_order :
  forall (p fs : list A),
    Permutation p fs -> exists sched, as_completed sched fs = p.
Proof.
  intros p fs H. destruct (as_completed_go_follows p fs H) as [picks Hp].
  exists (fun k => nth k picks 0%nat). apply Hp. reflexivity.
Qed.

End AnyOrder.

(** X23.  Every order of the submitted URLs is the order of the results of
    [check_multiple_urls] for some order of completion of the tasks: the
    order of the results says nothing on the order of the input. *)
Theorem check_multiple_urls_any_order :
  forall c s3_urls max_workers order,
    (1 <= max_workers)%Z ->
    Permutation order s3_urls ->
    exists sched results,
      check_multiple_urls c sched s3_urls max_workers = Returned results
      /\ map url results = order.
Proof.
  intros c s3_urls max_workers order Hw Hperm.
  set (probe := fun u => check_s3_url_access c u).
  destruct (as_completed_any_order (map probe order) (map probe s3_urls))
    as [sched Hsched]; [now apply Permutation_map |].
  destruct (collect_results_all_returned (map probe order)) as [rs [Hrs _]].
  { apply Forall_forall. intros f Hf.
    apply in_map_iff in Hf as [u [<- _]]. apply (probe_returns c). }
  exists sched, rs. unfold check_multiple_urls.
  destruct (Z.leb_spec max_workers 0) as [Hle | _]; [lia |].
  fold probe. rewrite Hsched. split; [exact Hrs |].
  apply collect_results_returned in Hrs.
  apply (f_equal (map result_url)) in Hrs. rewrite !map_map in Hrs.
  cbn [result_url] in Hrs. etransitivity; [symmetry; exact Hrs |].
  rewrite <- (map_id order) at 2. apply map_ext.
  intros u. unfold probe. destruct (probe_returns c u) as [o Ho]. rewrite Ho.
  cbn [result_url]. exact (probe_url c u o Ho).
Qed.

(** Three URLs, asked for in the reverse order. *)
Lemma check_multiple_urls_any_order_witness :
  exists sched results,
    check_multiple_urls bucket_a_client sched
      [Some "s3://bucket-a"; Some "s3://bucket-b"; None] 5
    = Returned results
    /\ map url results = [None; Some "s3://bucket-b"; Some "s3://bucket-a"].
Proof.
  apply (check_multiple_urls_any_order bucket_a_client
           [Some "s3://bucket-a"; Some "s3://bucket-b"; None] 5
           [None; Some "s3://bucket-b"; Some "s3://bucket-a"]);
    [lia |].
  apply Permutation_sym.
  change [None; Some "s3://bucket-b"; Some "s3://bucket-a"]
    with (rev [Some "s3://bucket-a"; Some "s3://bucket-b"; @None string]).
  apply Permutation_rev.
Defined.

(* ================================================================== *)
(** ** More on the probe when the client may raise anything *)

Section AnyRaiseOutcome.

Import S3Base.

(** X4.  When the client call of the probe raises anything but a
    [ClientError]: for a [ValueError] the outcome is of type ['invalid']
    with the exception's text, for any other subclass of [Exception] it is
    of type ['error'] with "Unexpected error: " before the text, and in
    both cases it keeps the URL, has an empty bucket and an empty key and is
    not accessible; an exception outside [Exception] is not caught and
    leaves the probe. *)
Theorem client_exception_outcome :
  forall (c : Client) u b k r,
    parse_s3_url (Some u) = Returned (b, k) ->
    S3Base.probe_call c b k = Abrupt r ->
    (forall error_code m, r <> IsException (ClientError error_code m)) ->
    S3Base.check_s3_url_access c (Some u)
    = match r with
      | IsException e => Normal (failure_outcome u e)
      | _ => Abrupt r
      end.
Proof.
  intros c u b k r Hp Hcall Hne.
  unfold S3Base.check_s3_url_access, S3Base.check_s3_url_access_body.
  rewrite Hp. cbn [of_result bind]. unfold S3Base.probe_call in Hcall.
  destruct (truthy k); cbn [negb].
  - unfold S3Base.check_object_access. rewrite Hcall.
    destruct r as [e | | code |]; try reflexivity.
    destruct e; try reflexivity. exfalso. now apply (Hne error_code msg).
  - unfold S3Base.check_bucket_access. rewrite Hcall.
    destruct r as [e | | code |]; try reflexivity.
    destruct e; try reflexivity. exfalso. now apply (Hne error_code msg).
Qed.

End AnyRaiseOutcome.

(** A connection that times out, and an interrupt, during the bucket
    call. *)
Lemma client_exception_outcome_witness :
  S3Base.check_s3_url_access S3Base.timeout_client (Some "s3://my-bucket")
  = S3Base.Normal
      {| url := Some "s3://my-bucket"; bucket := ""; key := "";
         accessible := false;
         message := "Unexpected error: Connect timeout on endpoint URL";
         type := "error" |}
  /\ S3Base.check_s3_url_access S3Base.interrupted_client
       (Some "s3://my-bucket")
     = S3Base.Abrupt S3Base.KeyboardInterrupt.
Proof.
  split.
  - apply (client_exception_outcome S3Base.timeout_client "s3://my-bucket"
             "my-bucket" ""
             (S3Base.IsException
                (OtherException "Connect timeout on endpoint URL")));
      [reflexivity | reflexivity | discriminate].
  - apply (client_exception_outcome S3Base.interrupted_client
             "s3://my-bucket" "my-bucket" "" S3Base.KeyboardInterrupt);
      [reflexivity | reflexivity | discriminate].
Defined.

Section PassThrough.

(** X24.  A string that starts with ["s3://"], has no white space at its
    ends and contains none of [".s3."], [".s3-"] and ["s3.amazonaws.com"]
    is returned as it is, whether a key follows the bucket or not: on such
    a string the normalizer changes nothing, however often it is applied,
    and the address is what [parse_s3_url] reads in the string. *)
Theorem canonical_pass_through :
  forall u,
    startswith "s3://" u = true ->
    strip u = u ->
    contains ".s3." u = false ->
    contains ".s3-" u = false ->
    contains "s3.amazonaws.com" u = false ->
    convert_domain_to_s3_url u = Some u
    /\ normalize u = parse_s3_url (Some u)
    /\ (forall b k,
          contains "/" b = false ->
          (u = "s3://" ++ b ++ "/" ++ k -> normalize u = Returned (b, k))
          /\ (u = "s3://" ++ b -> normalize u = Returned (b, ""))).
Proof.
  intros u Hu Hstrip Hdot Hdash Haws.
  assert (Hc := convert_canonical u Hu Hstrip Hdot Hdash Haws).
  assert (Hn : normalize u = parse_s3_url (Some u))
    by (unfold normalize; now rewrite Hc).
  split; [exact Hc |]. split; [exact Hn |].
  intros b k Hb. rewrite Hn. split; intros ->.
  - now apply parse_s3_url_canonical.
  - apply (parse_s3_url_of b "" Hb).
Qed.

End PassThrough.

(** A bucket alone, in the canonical form. *)
Lemma canonical_pass_through_witness :
  convert_domain_to_s3_url "s3://my-bucket" = Some "s3://my-bucket"
  /\ normalize "s3://my-bucket" = parse_s3_url (Some "s3://my-bucket")
  /\ (forall b k,
        contains "/" b = false ->
        ("s3://my-bucket" = "s3://" ++ b ++ "/" ++ k ->
         normalize "s3://my-bucket" = Returned (b, k))
        /\ ("s3://my-bucket" = "s3://" ++ b ->
            normalize "s3://my-bucket" = Returned (b, ""))).
Proof.
  apply (canonical_pass_through "s3://my-bucket"); reflexivity.
Defined.
